(** * Horse of procrastination: the detection loop and the alert presenter

  A shallow embedding of [app.py] (the webcam detection loop of [main]) and
  of [alert_system.py] ([load_horse_images] and [trigger_alert]), with the
  properties the specification states about them.

  Conventions.
  - Python [int] is [Z]; [%] is [Z.modulo] (both take the sign of the
    divisor) and [//] is [Z.div].
  - The camera, the detector, pygame and the file system are collaborators:
    each run takes what they answer as an explicit input, so every
    definition below is a total, executable function of those answers.
  - A [while True] loop runs over the finite list of answers it is given and
    returns the trace of its iterations.
  - Python [float] is IEEE 754 binary64, computed with the operations of
    [SpecFloat] at precision 53: the page turn and the height of the window
    truncate products of floats, where the last bit can decide the pixel. *)

From Stdlib Require Import String Ascii.
From Stdlib Require Import QArith.
From Stdlib Require Import Floats.SpecFloat.
From Stdlib Require Import ZArith List Bool Lia Orders Mergesort Sorted Permutation.
Import ListNotations.

Local Open Scope Z_scope.

(** ** constants.py *)

Module Constants.

Definition DETECTION_THRESHOLD : Z := 30.
Definition ALERT_WINDOW_MAX_WIDTH : Z := 500.
Definition ALERT_SWITCH_INTERVAL : Z := 2000.
Definition ALERT_TRANSITION_DURATION : Z := 800.
Definition BUTTON_WIDTH : Z := 160.
Definition BUTTON_HEIGHT : Z := 40.
Definition DISPLAY_FPS : Z := 60.

Definition YOLO_MODEL_PATH : string := "yolo11n.pt".
Definition CELL_PHONE_CLASS_ID : Z := 67.
Definition DETECTION_CONFIDENCE : Q := 1 # 2.
Definition BUTTON_CONTINUE_TEXT : string := "I'm working!".
Definition BUTTON_QUIT_TEXT : string := "Done for the day".
Definition DISPLAY_WINDOW_NAME : string := "Procrastination Detector".
Definition QUIT_KEY : string := "q".
Definition LOG_LEVEL : string := "INFO".

End Constants.

(** ** app.py: the detection loop of [main] *)

Module App.

(** What [trigger_alert(config)] does when [main] calls it: it returns
    [True], returns [False], or raises. *)
Inductive presenter_outcome : Type :=
| PresenterContinue
| PresenterQuit
| PresenterRaises.

(** The answers of the collaborators during one iteration of [while True]:
    - [ret]: the flag of [cap.read()];
    - [detected]: [any(len(r.boxes) > 0 for r in results)], or [None] when
      the call of the model raises;
    - [presenter]: the outcome of [trigger_alert], used only if it is called;
    - [display_ok]: [plot], [putText], [imshow], [waitKey] and
      [getWindowProperty] do not raise;
    - [quit_pressed]: [cv2.waitKey(1) & 0xFF == ord(config.ui.quit_key)];
    - [window_visible]: [prop >= 1]. *)
Record frame : Type := {
  ret : bool;
  detected : option bool;
  presenter : presenter_outcome;
  display_ok : bool;
  quit_pressed : bool;
  window_visible : bool
}.

Inductive control : Type := Next | Break.

(** One iteration as observed from outside: the value of
    [phone_detected_frames] when the iteration ends, whether
    [trigger_alert] was called, and whether the loop goes on. *)
Record iteration : Type := {
  counter_out : Z;
  alert_invoked : bool;
  ctl : control
}.

(** Lines 155-196: annotate and show the frame, then the quit key and the
    closed window.  An exception there reaches [except Exception] at line
    198, which continues. *)
Definition show_frame (f : frame) : control :=
  if negb (display_ok f) then Next
  else if quit_pressed f then Break
  else if negb (window_visible f) then Break
  else Next.

(** Lines 114-200, the body of [while True]. *)
Definition loop_body (threshold phone_detected_frames : Z) (f : frame)
  : iteration :=
  if negb (ret f) then
    {| counter_out := phone_detected_frames; alert_invoked := false; ctl := Next |}
  else
    match detected f with
    | None =>
        {| counter_out := phone_detected_frames; alert_invoked := false; ctl := Next |}
    | Some phone_detected =>
        let n := if phone_detected then phone_detected_frames + 1 else 0 in
        if threshold <=? n then
          match presenter f with
          | PresenterQuit =>
              {| counter_out := n; alert_invoked := true; ctl := Break |}
          | PresenterContinue | PresenterRaises =>
              {| counter_out := 0; alert_invoked := true; ctl := show_frame f |}
          end
        else
          {| counter_out := n; alert_invoked := false; ctl := show_frame f |}
    end.

(** The loop over the frames it is given; the trace ends with the iteration
    that breaks. *)
Fixpoint main_loop (threshold phone_detected_frames : Z) (frames : list frame)
  : list iteration :=
  match frames with
  | [] => []
  | f :: rest =>
      let it := loop_body threshold phone_detected_frames f in
      it :: match ctl it with
            | Next => main_loop threshold (counter_out it) rest
            | Break => []
            end
  end.

(** Line 111: [phone_detected_frames = 0]. *)
Definition main (threshold : Z) (frames : list frame) : list iteration :=
  main_loop threshold 0 frames.

(** The counter after a trace that started from [init]. *)
Definition counter_after (init : Z) (trace : list iteration) : Z :=
  last (map counter_out trace) init.

Definition final_counter (trace : list iteration) : Z :=
  counter_after 0 trace.

(** The loop has consumed all of [frames] and has not left. *)
Definition still_running (frames : list frame) (trace : list iteration) : Prop :=
  length trace = length frames /\ Forall (fun it => ctl it = Next) trace.

(** The 1-based numbers of the frames after which the presenter was called. *)
Fixpoint alert_frames_from (k : Z) (trace : list iteration) : list Z :=
  match trace with
  | [] => []
  | it :: rest =>
      if alert_invoked it then k :: alert_frames_from (k + 1) rest
      else alert_frames_from (k + 1) rest
  end.

Definition alert_frames (trace : list iteration) : list Z :=
  alert_frames_from 1 trace.

(** A frame that is skipped: the read failed or the detector raised. *)
Definition skipped (f : frame) : bool :=
  negb (ret f) || match detected f with None => true | Some _ => false end.

(** The run the specification speaks of, read off a history given most
    recent frame first: the detected frames since the last frame that was
    not detected or that called the presenter; skipped frames do not
    count. *)
Fixpoint trailing_run (recent_first : list (frame * iteration)) : Z :=
  match recent_first with
  | [] => 0
  | (f, it) :: older =>
      if skipped f then trailing_run older
      else if alert_invoked it then 0
      else match detected f with
           | Some true => 1 + trailing_run older
           | _ => 0
           end
  end.

Definition history (frames : list frame) (trace : list iteration)
  : list (frame * iteration) :=
  rev (combine frames trace).

(** [trigger_alert] returned [False] in the last iteration of the history. *)
Definition ended_by_presenter_quit (recent_first : list (frame * iteration))
  : bool :=
  match recent_first with
  | (f, it) :: _ =>
      alert_invoked it &&
      match presenter f with PresenterQuit => true | _ => false end
  | [] => false
  end.

(** The run before any reset: what the counter holds when the last
    iteration is left through [break] at line 149, before line 153. *)
Definition unreset_run (recent_first : list (frame * iteration)) : Z :=
  match recent_first with
  | (f, _) :: older =>
      match detected f with
      | Some true => 1 + trailing_run older
      | _ => 0
      end
  | [] => 0
  end.

(** A frame on which everything works and nobody leaves. *)
Definition plain_frame (phone_detected : bool) (o : presenter_outcome) : frame :=
  {| ret := true; detected := Some phone_detected; presenter := o;
     display_ok := true; quit_pressed := false; window_visible := true |}.

Definition yes : frame := plain_frame true PresenterContinue.
Definition no : frame := plain_frame false PresenterContinue.
Definition failed_read : frame :=
  {| ret := false; detected := Some true; presenter := PresenterContinue;
     display_ok := true; quit_pressed := false; window_visible := true |}.
Definition detector_raises : frame :=
  {| ret := true; detected := None; presenter := PresenterContinue;
     display_ok := true; quit_pressed := false; window_visible := true |}.

(** *** Start-up and shutdown of [main] *)

(** What the machine answers when [main] starts:
    - [model_exists]: [os.path.exists(config.detection.yolo_model_path)];
    - [probe_opens]: [test_cap.isOpened()] in [validate_environment];
    - [images_folder_exists], [audio_exists]: the two other [os.path.exists];
    - [model_loads]: [YOLO(...)] does not raise;
    - [camera_opens]: [cap.isOpened()] in [main]. *)
Record startup : Type := {
  model_exists : bool;
  probe_opens : bool;
  images_folder_exists : bool;
  audio_exists : bool;
  model_loads : bool;
  camera_opens : bool
}.

(** The errors and warnings logged at start-up and the calls that take or
    give back a camera or the windows, in the order made.  The log lines of
    the detection loop itself are left out. *)
Inductive effect : Type :=
| LogError
| LogWarning
| ProbeCamera
| ReleaseProbe
| OpenCamera
| ReleaseCamera
| DestroyAllWindows.

(** Lines 27-65. *)
Definition validate_environment (s : startup) : bool * list effect :=
  if negb (model_exists s) then (false, [LogError; LogError])
  else if negb (probe_opens s) then
    (false, [ProbeCamera; LogError; ReleaseProbe])
  else
    (true,
     [ProbeCamera; ReleaseProbe]
     ++ (if images_folder_exists s then [] else [LogWarning; LogWarning])
     ++ (if audio_exists s then [] else [LogWarning; LogWarning])).

(** How the loop is left when it has gone through the frames given without
    a [break]: Ctrl+C ([KeyboardInterrupt], line 202), or [cap.read()]
    raises (line 114 is outside the inner [try], so line 204 catches it). *)
Inductive loop_end : Type := CtrlC | ReadRaises.

Definition left_by_break (trace : list iteration) : bool :=
  existsb (fun it => match ctl it with Break => true | Next => false end) trace.

Record run : Type := {
  exit_code : Z;
  effects : list effect;
  iterations : list iteration
}.

(** Lines 68-214, after the configuration is loaded and logging is set up. *)
Definition main_program (threshold : Z) (s : startup) (frames : list frame)
           (ending : loop_end) : run :=
  let (valid, checks) := validate_environment s in
  if negb valid then
    {| exit_code := 1; effects := checks ++ [LogError]; iterations := [] |}
  else if negb (model_loads s) then
    {| exit_code := 1; effects := checks ++ [LogError]; iterations := [] |}
  else if negb (camera_opens s) then
    {| exit_code := 1;
       effects := checks ++ [OpenCamera; LogError; ReleaseCamera; DestroyAllWindows];
       iterations := [] |}
  else
    let trace := main threshold frames in
    {| exit_code := if left_by_break trace then 0
                    else match ending with CtrlC => 0 | ReadRaises => 1 end;
       effects := checks
                  ++ [OpenCamera]
                  ++ (if left_by_break trace then []
                      else match ending with CtrlC => [] | ReadRaises => [LogError] end)
                  ++ [ReleaseCamera; DestroyAllWindows];
       iterations := trace |}.

Definition effect_eqb (a b : effect) : bool :=
  match a, b with
  | LogError, LogError | LogWarning, LogWarning | ProbeCamera, ProbeCamera
  | ReleaseProbe, ReleaseProbe | OpenCamera, OpenCamera
  | ReleaseCamera, ReleaseCamera | DestroyAllWindows, DestroyAllWindows => true
  | _, _ => false
  end.

(** How often a call was made. *)
Definition times (a : effect) (l : list effect) : nat :=
  List.length (filter (effect_eqb a) l).

(** Alerts that are at least [gap] frames apart, the first one at least
    [gap] frames after frame [prev]. *)
Fixpoint spaced (gap prev : Z) (alerts : list Z) : Prop :=
  match alerts with
  | [] => True
  | a :: rest => gap <= a - prev /\ spaced gap a rest
  end.

(** A frame that is read and detected as a phone, after which the loop goes
    on: the presenter, if called, does not ask to quit, and nobody leaves. *)
Definition steady (f : frame) : Prop :=
  ret f = true /\ detected f = Some true
  /\ presenter f <> PresenterQuit /\ show_frame f = Next.

End App.

(** ** alert_system.py *)

Module Alert.

(** *** File names

    File names are ASCII strings.  [str.lower] maps [A-Z] to [a-z] and
    [sorted] orders by code point. *)

Definition lower_ascii (c : ascii) : ascii :=
  let n := nat_of_ascii c in
  if (65 <=? n)%nat && (n <=? 90)%nat then ascii_of_nat (n + 32) else c.

Fixpoint lower (s : string) : string :=
  match s with
  | EmptyString => EmptyString
  | String c rest => String (lower_ascii c) (lower rest)
  end.

Definition endswith (s suffix : string) : bool :=
  let n := String.length s in
  let k := String.length suffix in
  (k <=? n)%nat && String.eqb (substring (n - k) k s) suffix.

Module NameOrder <: Orders.TotalLeBool.
Definition t := string.
Definition leb := String.leb.
Definition leb_total : forall a1 a2, leb a1 a2 = true \/ leb a2 a1 = true :=
  String.leb_total.
End NameOrder.

Module NameSort := Mergesort.Sort NameOrder.

(** [sorted(os.listdir(folder))]. *)
Definition sorted (names : list string) : list string := NameSort.sort names.

(** *** Images *)

(** A decoded image: the file it comes from, the number of the frame in
    that file, and its size in pixels. *)
Record Surface : Type := {
  source : string;
  frame_idx : nat;
  size : Z * Z
}.

(** The image folder and the decoders, as [load_horse_images] sees them:
    - [folder_exists]: [os.path.exists(folder)];
    - [listdir]: [os.listdir(folder)], [None] when it raises;
    - [image_load]: [pygame.image.load(path)], [None] for [pygame.error];
    - [mimread]: [imageio.mimread(path)], [None] when it raises; each frame
      is what [pygame.surfarray.make_surface] makes of it, [None] when that
      raises. *)
Record folder_env : Type := {
  folder_exists : bool;
  listdir : option (list string);
  image_load : string -> option Surface;
  mimread : string -> option (list (option Surface))
}.

(** Lines 72-75: frames are appended one by one, so the frames converted
    before an exception stay in [surfaces]. *)
Fixpoint append_frames (frames : list (option Surface)) : list Surface :=
  match frames with
  | Some surf :: rest => surf :: append_frames rest
  | None :: _ => []
  | [] => []
  end.

(** Lines 47-78: what one directory entry adds to [surfaces]. *)
Definition load_entry (imageio_available : bool) (env : folder_env)
           (fname : string) : list Surface :=
  let lower := lower fname in
  if negb (endswith lower ".png"%string || endswith lower ".gif"%string) then []
  else if endswith lower ".png"%string then
    match image_load env fname with
    | Some img => [img]
    | None => []
    end
  else if negb imageio_available then
    match image_load env fname with
    | Some img => [img]
    | None => []
    end
  else
    match mimread env fname with
    | Some gif => append_frames gif
    | None => []
    end.

(** Lines 24-81. *)
Definition load_horse_images (imageio_available : bool) (env : folder_env)
  : list Surface :=
  if negb (folder_exists env) then []
  else
    match listdir env with
    | None => []
    | Some names => flat_map (load_entry imageio_available env) (sorted names)
    end.

(** *** Numbers

    The exceptions the arithmetic and the indexing of [trigger_alert] can
    raise. *)

Inductive step_error : Type :=
| ZeroDivisionError
| IndexError
| OverflowError
| ValueError.

(** Python's [float]: binary64, rounding to nearest with ties to even. *)

Module Float64.

Definition prec : Z := 53.
Definition emax : Z := 1024.

Definition float : Type := spec_float.

(** An integer as mantissa with exponent 0, not rounded. *)
Definition exact (z : Z) : float :=
  match z with
  | Z0 => S754_zero false
  | Zpos m => S754_finite false m 0
  | Zneg m => S754_finite true m 0
  end.

(** [float(z)]: the float nearest to [z], infinite past the largest float. *)
Definition of_int (z : Z) : float := binary_normalize prec emax z 0 false.

(** [a / b] on two integers with [b <> 0]: the float nearest to the
    quotient (Python rounds it once, whatever the size of [a] and [b]). *)
Definition int_div (a b : Z) : float := SFdiv prec emax (exact a) (exact b).

Definition mul : float -> float -> float := SFmul prec emax.
Definition div : float -> float -> float := SFdiv prec emax.
Definition sub : float -> float -> float := SFsub prec emax.
Definition abs : float -> float := SFabs.
Definition ltb : float -> float -> bool := SFltb.

Definition finite (f : float) : bool :=
  match f with
  | S754_zero _ | S754_finite _ _ _ => true
  | S754_infinity _ | S754_nan => false
  end.

(** [int(f)]: the whole part, towards zero; [None] for an infinity and for
    not-a-number. *)
Definition trunc (f : float) : option Z :=
  match f with
  | S754_zero _ => Some 0
  | S754_finite s m e =>
      let whole := if 0 <=? e then Zpos m * 2 ^ e else Zpos m / 2 ^ (- e) in
      Some (if s then - whole else whole)
  | S754_infinity _ | S754_nan => None
  end.

Definition one : float := of_int 1.
Definition ninety : float := of_int 90.

(** The literal [0.01]: the float nearest to 1/100. *)
Definition hundredth : float := int_div 1 100.

(** [min(1.0, f)]. *)
Definition min_one (f : float) : float := if ltb f one then f else one.

End Float64.

(** [float(z)], as where an [int] meets a [float] in a product. *)
Definition float_of_int (z : Z) : step_error + Float64.float :=
  let f := Float64.of_int z in
  if Float64.finite f then inr f else inl OverflowError.

(** [a / b] on two [int]s. *)
Definition float_div (a b : Z) : step_error + Float64.float :=
  if b =? 0 then inl ZeroDivisionError
  else
    let q := Float64.int_div a b in
    if Float64.finite q then inr q else inl OverflowError.

(** [int(f)]. *)
Definition int_of_float (f : Float64.float) : step_error + Z :=
  match Float64.trunc f with
  | Some z => inr z
  | None => inl (match f with S754_nan => ValueError | _ => OverflowError end)
  end.

(** [int(n * scale)] for an [int] [n] and a [float] [scale]. *)
Definition pixels (n : Z) (scale : Float64.float) : step_error + Z :=
  match float_of_int n with
  | inl err => inl err
  | inr f => int_of_float (Float64.mul f scale)
  end.

(** The progress of a transition is the quotient of two tick counts.  Python
    rounds that quotient correctly, and rounding to nearest is monotone and
    keeps 0 and 1, so for tick counts (well below 2^53) the test
    [progress >= 1.0] and the order of two progress values are those of the
    exact quotients: the tests of the carousel are made on the exact
    quotient [true_div], and the float is computed where its digits matter,
    in the widths of the page turn. *)

Definition Qltb (x y : Q) : bool := negb (Qle_bool y x).

(** The exact value of [a / b] for [b <> 0]. *)
Definition true_div (a b : Z) : Q := (inject_Z a / inject_Z b)%Q.

(** [min(1.0, q)]. *)
Definition min_one (q : Q) : Q := if Qltb q 1 then q else 1%Q.

(** [l[i]]: a negative index counts from the end; [None] is [IndexError]. *)
Definition getitem {A : Type} (l : list A) (i : Z) : option A :=
  let n := Z.of_nat (List.length l) in
  if 0 <=? i then nth_error l (Z.to_nat i)
  else if 0 <=? n + i then nth_error l (Z.to_nat (n + i))
  else None.

(** *** Configuration (config.py), the fields [trigger_alert] reads *)

Record AlertConfig : Type := {
  window_max_width : Z;
  switch_interval : Z;
  transition_duration : Z
}.

Record UIConfig : Type := {
  button_width : Z;
  button_height : Z;
  display_fps : Z
}.

Record AppConfig : Type := {
  alert : AlertConfig;
  ui : UIConfig
}.

Definition default_config : AppConfig :=
  {| alert := {| window_max_width := Constants.ALERT_WINDOW_MAX_WIDTH;
                 switch_interval := Constants.ALERT_SWITCH_INTERVAL;
                 transition_duration := Constants.ALERT_TRANSITION_DURATION |};
     ui := {| button_width := Constants.BUTTON_WIDTH;
              button_height := Constants.BUTTON_HEIGHT;
              display_fps := Constants.DISPLAY_FPS |} |}.

(** *** pygame: rectangles and events

    [pygame.Rect(0, 0, w, h)] moved by [rect.center = (cx, cy)], and
    [collidepoint], which leaves out the right and the bottom edge. *)

Record Rect : Type := {
  rect_x : Z;
  rect_y : Z;
  rect_w : Z;
  rect_h : Z
}.

Definition centered_rect (w h : Z) (center : Z * Z) : Rect :=
  {| rect_x := fst center - w / 2;
     rect_y := snd center - h / 2;
     rect_w := w;
     rect_h := h |}.

Definition collidepoint (r : Rect) (pos : Z * Z) : bool :=
  (rect_x r <=? fst pos) && (fst pos <? rect_x r + rect_w r)
  && (rect_y r <=? snd pos) && (snd pos <? rect_y r + rect_h r).

Definition K_q : Z := 113.
Definition K_ESCAPE : Z := 27.

(** An event of [pygame.event.get()]; [OTHER] stands for every type the loop
    has no branch for (mouse motion, key release, ...). *)
Inductive event : Type :=
| QUIT
| KEYDOWN (key : Z)
| MOUSEBUTTONDOWN (pos : Z * Z)
| OTHER (type : Z).

(** The flags [running] and [should_continue]. *)
Record flags : Type := {
  running : bool;
  should_continue : bool
}.

(** Lines 284-297, the body of [for event in pygame.event.get()]. *)
Definition handle_event (btn_continue btn_quit : Rect) (fl : flags) (e : event)
  : flags :=
  match e with
  | QUIT => {| running := false; should_continue := false |}
  | KEYDOWN key =>
      if (key =? K_q) || (key =? K_ESCAPE)
      then {| running := false; should_continue := true |}
      else fl
  | MOUSEBUTTONDOWN pos =>
      if collidepoint btn_continue pos
      then {| running := false; should_continue := true |}
      else if collidepoint btn_quit pos
      then {| running := false; should_continue := false |}
      else fl
  | OTHER _ => fl
  end.

(** Line 283: the whole batch is gone through, no event ends the [for]. *)
Definition poll (btn_continue btn_quit : Rect) (fl : flags) (events : list event)
  : flags :=
  fold_left (handle_event btn_continue btn_quit) events fl.

(** An event that changes neither flag: an event type without a branch, a
    key other than [q] and Escape, a click outside both buttons. *)
Definition ignored (btn_continue btn_quit : Rect) (e : event) : bool :=
  match e with
  | QUIT => false
  | KEYDOWN key => negb ((key =? K_q) || (key =? K_ESCAPE))
  | MOUSEBUTTONDOWN pos =>
      negb (collidepoint btn_continue pos) && negb (collidepoint btn_quit pos)
  | OTHER _ => true
  end.

(** *** The carousel *)

(** Lines 194-203: the state of the carousel. *)
Record carousel : Type := {
  idx : Z;
  next_idx : Z;
  transitioning : bool;
  transition_start : Z;
  last_switch : Z
}.

(** An image put on the screen at height 0: its index in [horse_images], the
    width it is scaled to and the column of its left edge. *)
Record blit : Type := {
  image : Z;
  width : Z;
  x : Z
}.

(** What one iteration draws: an image at full size, or the two scaled images
    of a page turn on a black screen, each drawn or skipped. *)
Inductive picture : Type :=
| Full (image : Z)
| PageTurn (old new : option blit).

(** One iteration of the render loop as observed from outside. *)
Record tick_log : Type := {
  at_time : Z;
  state_before : carousel;
  began : bool;
  progress_shown : option Q;
  committed : bool;
  state_after : carousel;
  drawn : picture
}.

(** Lines 213-216. *)
Definition begins (cfg : AlertConfig) (c : carousel) (now : Z) : bool :=
  negb (transitioning c) && (switch_interval cfg <=? now - last_switch c).

Definition begin_transition (cfg : AlertConfig) (n_images : Z) (c : carousel)
           (now : Z) : carousel :=
  if begins cfg c now then
    {| idx := idx c;
       next_idx := (idx c + 1) mod n_images;
       transitioning := true;
       transition_start := now;
       last_switch := last_switch c |}
  else c.

(** Line 221, for a transition duration that is not 0: the exact value. *)
Definition progress_at (cfg : AlertConfig) (c : carousel) (now : Z) : Q :=
  min_one (true_div (now - transition_start c) (transition_duration cfg)).

(** Line 221 as computed: the quotient rounded to a float, then
    [min(1.0, ...)]. *)
Definition float_progress (cfg : AlertConfig) (c : carousel) (now : Z)
  : step_error + Float64.float :=
  match float_div (now - transition_start c) (transition_duration cfg) with
  | inl err => inl err
  | inr quotient => inr (Float64.min_one quotient)
  end.

(** Lines 241-247 and 250-256: one image of the page turn, scaled to the
    width [int(img_width * scale)] and put with its left edge at column
    [left width]; skipped when the scale is not above 0.01 or the width is
    not above 0. *)
Definition scaled_blit (img_width image : Z) (scale : Float64.float)
           (left : Z -> Z) : step_error + option blit :=
  if Float64.ltb Float64.hundredth scale then
    match pixels img_width scale with
    | inl err => inl err
    | inr w =>
        inr (if 0 <? w
             then Some {| image := image; width := w; x := left w |}
             else None)
    end
  else inr None.

(** Lines 231-256: the page turn at a progress below 1. *)
Definition page_turn (img_width : Z) (c : carousel) (progress : Float64.float)
  : step_error + picture :=
  let angle := Float64.mul progress Float64.ninety in
  let old_scale :=
    Float64.div (Float64.abs (Float64.sub Float64.ninety angle))
                Float64.ninety in
  let new_scale := Float64.div (Float64.abs angle) Float64.ninety in
  match scaled_blit img_width (idx c) old_scale (fun _ => 0) with
  | inl err => inl err
  | inr old =>
      match scaled_blit img_width (next_idx c) new_scale
                        (fun new_w => img_width - new_w) with
      | inl err => inl err
      | inr new => inr (PageTurn old new)
      end
  end.

(** Lines 210-258: the part of one iteration that concerns the carousel,
    with the exceptions its arithmetic and its indexing raise.  Line 221 is
    computed as a float, [shown], which the page turn uses; the test of line
    223 is made on the exact quotient (see Numbers above).  The calls of
    pygame in the same lines, which can raise as well, are an answer of the
    environment: see [draws] and [render_loop]. *)
Definition carousel_step {A : Type} (cfg : AlertConfig) (horse_images : list A)
           (img_width : Z) (c : carousel) (now : Z) : step_error + tick_log :=
  let c1 := begin_transition cfg (Z.of_nat (List.length horse_images)) c now in
  let entry := fun (p : option Q) (done : bool) (c2 : carousel) (pic : picture) =>
    {| at_time := now; state_before := c; began := begins cfg c now;
       progress_shown := p; committed := done; state_after := c2;
       drawn := pic |} in
  if transitioning c1 then
    match float_progress cfg c1 now with
    | inl err => inl err
    | inr shown =>
        let progress := progress_at cfg c1 now in
        if Qle_bool 1 progress then
          let c2 := {| idx := next_idx c1;
                       next_idx := next_idx c1;
                       transitioning := false;
                       transition_start := transition_start c1;
                       last_switch := now |} in
          match getitem horse_images (idx c2) with
          | Some _ => inr (entry (Some progress) true c2 (Full (idx c2)))
          | None => inl IndexError
          end
        else
          match getitem horse_images (idx c1),
                getitem horse_images (next_idx c1) with
          | Some _, Some _ =>
              match page_turn img_width c1 shown with
              | inl err => inl err
              | inr pic => inr (entry (Some progress) false c1 pic)
              end
          | _, _ => inl IndexError
          end
    end
  else
    match getitem horse_images (idx c1) with
    | Some _ => inr (entry None false c1 (Full (idx c1)))
    | None => inl IndexError
    end.

(** Lines 194-203. *)
Definition initial_carousel (ticks : Z) : carousel :=
  {| idx := 0; next_idx := 0; transitioning := false; transition_start := 0;
     last_switch := ticks |}.

(** Both indices of the carousel are indices of a list of [n] images. *)
Definition in_range (n : Z) (c : carousel) : Prop :=
  0 <= idx c < n /\ 0 <= next_idx c < n.

Definition blit_in_range (n : Z) (b : option blit) : Prop :=
  match b with
  | Some b => 0 <= image b < n
  | None => True
  end.

(** Every image a picture shows is an image of the list. *)
Definition picture_in_range (n : Z) (pic : picture) : Prop :=
  match pic with
  | Full i => 0 <= i < n
  | PageTurn old new => blit_in_range n old /\ blit_in_range n new
  end.




(** *** The presenter session *)

(** One pass of [while running]: the clock read at line 210, whether the
    calls of pygame in lines 228-283 ([blit], [fill], [smoothscale],
    [draw.rect], [flip], [clock.tick], [event.get]) all return, and the events
    polled at line 283.  A call that raises ends the loop at line 299. *)
Record tick : Type := {
  now : Z;
  draws : bool;
  events : list event
}.

(** What pygame and the folder answer during one call of [trigger_alert]:
    whether [pygame.init], [smoothscale], [display.set_mode], the button font
    and the warning font succeed, whether the music was started (lines
    117-134, which never raise), the clock at line 198 and the passes of the
    render loop. *)
Record session_env : Type := {
  pygame_init_ok : bool;
  imageio_available : bool;
  folder : folder_env;
  audio_found : bool;
  smoothscale_ok : bool;
  set_mode_ok : bool;
  font_ok : bool;
  warning_font_ok : bool;
  start_ticks : Z;
  ticks : list tick
}.

(** The calls of pygame that open or close something, in the order made. *)
Inductive pygame_call : Type :=
| CallInit
| CallSetMode (size : Z * Z)
| CallButtonFont
| CallWarningFont
| CallQuit.

(** How a call of [trigger_alert] ends: it returns [should_continue], it
    raises, or the render loop is still running after the passes given. *)
Inductive result : Type :=
| Returned (keep_monitoring : bool)
| Raised (e : step_error)
| Running.

Record session : Type := {
  outcome : result;
  calls : list pygame_call;
  banner : bool;
  log : list tick_log
}.

(** Lines 209-300.  An exception in the loop, from the arithmetic, the
    indexing or a call of pygame, is caught at line 299 and [should_continue]
    is returned as it stands; the log keeps the passes that came to their
    end. *)
Fixpoint render_loop {A : Type} (cfg : AlertConfig) (horse_images : list A)
         (img_width : Z) (btn_continue btn_quit : Rect) (c : carousel)
         (fl : flags) (passes : list tick) : result * list tick_log :=
  match passes with
  | [] => (Running, [])
  | t :: rest =>
      match carousel_step cfg horse_images img_width c (now t) with
      | inl _ => (Returned (should_continue fl), [])
      | inr entry =>
          if negb (draws t) then (Returned (should_continue fl), [])
          else
            let fl' := poll btn_continue btn_quit fl (events t) in
            if running fl' then
              let (r, l) := render_loop cfg horse_images img_width btn_continue
                                        btn_quit (state_after entry) fl' rest in
              (r, entry :: l)
            else (Returned (should_continue fl'), [entry])
      end
  end.

Definition resize (new_size : Z * Z) (img : Surface) : Surface :=
  {| source := source img; frame_idx := frame_idx img; size := new_size |}.

(** Lines 136-153: the images and the size of the window.  The arithmetic
    of lines 142-144 is outside every [try]. *)
Definition scale_images (max_width : Z) (smoothscale_ok : bool)
           (base_img : Surface) (horse_images : list Surface)
  : step_error + (list Surface * (Z * Z)) :=
  let (img_width, img_height) := size base_img in
  if max_width <? img_width then
    match float_div max_width img_width with
    | inl err => inl err
    | inr scale =>
        let new_w := max_width in
        match pixels img_height scale with
        | inl err => inl err
        | inr new_h =>
            if smoothscale_ok
            then inr (map (resize (new_w, new_h)) horse_images, (new_w, new_h))
            else inr (horse_images, (img_width, img_height))
        end
    end
  else inr (horse_images, (img_width, img_height)).

(** Lines 164-170: the two buttons. *)
Definition continue_button (cfg : UIConfig) (img_width : Z) : Rect :=
  centered_rect (button_width cfg) (button_height cfg) (img_width / 2 - 90, 30).

Definition quit_button (cfg : UIConfig) (img_width : Z) : Rect :=
  centered_rect (button_width cfg) (button_height cfg) (img_width / 2 + 90, 30).

Definition initial_flags : flags :=
  {| running := true; should_continue := true |}.

(** Lines 84-305. *)
Definition trigger_alert (config : AppConfig) (env : session_env) : session :=
  if negb (pygame_init_ok env) then
    {| outcome := Returned true; calls := [CallInit]; banner := false; log := [] |}
  else
    match load_horse_images (imageio_available env) (folder env) with
    | [] =>
        {| outcome := Returned true; calls := [CallInit; CallQuit];
           banner := false; log := [] |}
    | base_img :: others =>
        match scale_images (window_max_width (alert config)) (smoothscale_ok env)
                           base_img (base_img :: others) with
        | inl e =>
            {| outcome := Raised e; calls := [CallInit]; banner := false; log := [] |}
        | inr (horse_images, (img_width, img_height)) =>
            if negb (set_mode_ok env) then
              {| outcome := Returned true;
                 calls := [CallInit; CallSetMode (img_width, img_height); CallQuit];
                 banner := false; log := [] |}
            else if negb (font_ok env) then
              {| outcome := Returned true;
                 calls := [CallInit; CallSetMode (img_width, img_height);
                           CallButtonFont; CallQuit];
                 banner := false; log := [] |}
            else
              let warning := negb (audio_found env) in
              let (r, l) :=
                render_loop (alert config) horse_images img_width
                            (continue_button (ui config) img_width)
                            (quit_button (ui config) img_width)
                            (initial_carousel (start_ticks env))
                            initial_flags (ticks env) in
              {| outcome := r;
                 calls := [CallInit; CallSetMode (img_width, img_height);
                           CallButtonFont]
                          ++ (if warning then [CallWarningFont] else [])
                          ++ match r with Running => [] | _ => [CallQuit] end;
                 banner := warning && warning_font_ok env;
                 log := l |}
        end
    end.

(** The display was opened: [pygame.display.set_mode] was called. *)
Definition opens_display (s : session) : bool :=
  existsb (fun c => match c with CallSetMode _ => true | _ => false end)
          (calls s).

(** A folder in which every listed file decodes: a PNG to one still, a GIF
    to the given number of frames (its first frame when loaded as a
    still). *)
Definition still (fname : string) : Surface :=
  {| source := fname; frame_idx := 0; size := (400, 300)%Z |}.

Definition gif_frame (fname : string) (k : nat) : Surface :=
  {| source := fname; frame_idx := k; size := (400, 300)%Z |}.

Definition readable_folder (names : list string) (gif_length : string -> nat)
  : folder_env :=
  {| folder_exists := true;
     listdir := Some names;
     image_load := fun fname => Some (still fname);
     mimread := fun fname =>
                  Some (map (fun k => Some (gif_frame fname k))
                            (seq 0 (gif_length fname))) |}.

(** The folder of the scenario: the two names as listed, a GIF of four
    frames and a PNG, everything readable. *)
Definition gif_and_png : folder_env :=
  readable_folder ["horse.png"%string; "dance.gif"%string] (fun _ => 4%nat).

(** A session in which everything starts and the passes are the given ones. *)
Definition healthy_session (passes : list tick) : session_env :=
  {| pygame_init_ok := true; imageio_available := true; folder := gif_and_png;
     audio_found := true; smoothscale_ok := true; set_mode_ok := true;
     font_ok := true; warning_font_ok := true; start_ticks := 0;
     ticks := passes |}.

(** The default configuration with a transition duration below zero. *)
Definition negative_duration_config : AppConfig :=
  {| alert := {| window_max_width := Constants.ALERT_WINDOW_MAX_WIDTH;
                 switch_interval := 0;
                 transition_duration := -800 |};
     ui := ui default_config |}.

(** Passes of the render loop without events, at the given times. *)
Definition quiet_passes (times : list Z) : list tick :=
  map (fun t => {| now := t; draws := true; events := [] |}) times.

(** The last event of a batch that is not ignored, if any. *)
Definition last_deciding (btn_continue btn_quit : Rect) (batch : list event)
  : option event :=
  fold_left (fun found e => if ignored btn_continue btn_quit e then found
                            else Some e)
            batch None.

(** An event that asks to stop monitoring: the window is closed, or the
    mouse is pressed on the quit button outside the continue button. *)
Definition asks_to_stop (btn_continue btn_quit : Rect) (e : event) : Prop :=
  e = QUIT
  \/ exists pos, e = MOUSEBUTTONDOWN pos
                 /\ collidepoint btn_continue pos = false
                 /\ collidepoint btn_quit pos = true.

(** The passes of a render loop that all come before the first switch is
    due and bring no event that counts. *)
Definition idle_pass (cfg : AlertConfig) (btn_continue btn_quit : Rect)
           (start : Z) (t : tick) : Prop :=
  now t - start < switch_interval cfg
  /\ Forall (fun e => ignored btn_continue btn_quit e = true) (events t).

(** The same folder with another answer of [os.listdir]. *)
Definition with_listing (env : folder_env) (names : list string) : folder_env :=
  {| folder_exists := folder_exists env;
     listdir := Some names;
     image_load := image_load env;
     mimread := mimread env |}.

(** A name that [load_horse_images] takes for an image file. *)
Definition image_name (fname : string) : bool :=
  endswith (lower fname) ".png"%string || endswith (lower fname) ".gif"%string.



(** The default configuration with buttons 200 wide: their centres are 180
    apart, so they share 20 columns. *)
Definition wide_buttons_config : AppConfig :=
  {| alert := alert default_config;
     ui := {| button_width := 200;
              button_height := Constants.BUTTON_HEIGHT;
              display_fps := Constants.DISPLAY_FPS |} |}.





End Alert.

(** ** config.py *)

Module Config.

(** What [yaml.safe_load] returns: a Python value.  A [dict] is the list of
    its items, with distinct keys; keys and values are not typed.  The sets,
    dates and byte strings that YAML tags can also give are left out. *)
#[warnings="-register-all"]
Inductive value : Type :=
| VNone
| VBool (b : bool)
| VInt (z : Z)
| VFloat (q : Q)
| VStr (s : string)
| VList (items : list value)
| VDict (items : list (value * value)).

(** [if data:]. *)
Definition truthy (data : value) : bool :=
  match data with
  | VNone => false
  | VBool b => b
  | VInt z => negb (z =? 0)
  | VFloat q => negb (Qeq_bool q 0)
  | VStr s => negb (String.eqb s "")
  | VList items => match items with [] => false | _ :: _ => true end
  | VDict items => match items with [] => false | _ :: _ => true end
  end.

(** [name == k] for the string [name]. *)
Definition is_key (name : string) (k : value) : bool :=
  match k with
  | VStr s => String.eqb s name
  | _ => false
  end.

Fixpoint lookup (name : string) (items : list (value * value)) : option value :=
  match items with
  | [] => None
  | (k, v) :: rest => if is_key name k then Some v else lookup name rest
  end.

(** [name in data]: a key of a dict, an element of a list, a substring of a
    string; [None] is the [TypeError] of the other values. *)
Definition contains (data : value) (name : string) : option bool :=
  match data with
  | VDict items =>
      Some (match lookup name items with Some _ => true | None => false end)
  | VList items => Some (existsb (is_key name) items)
  | VStr s =>
      Some (match index 0 name s with Some _ => true | None => false end)
  | VNone | VBool _ | VInt _ | VFloat _ => None
  end.

(** [data[name]]; [None] is [KeyError] or [TypeError]. *)
Definition subscript (data : value) (name : string) : option value :=
  match data with
  | VDict items => lookup name items
  | _ => None
  end.

(** [d.get(name, default)]; [None] is the [AttributeError] of a value that
    is not a dict. *)
Definition get (d : value) (name : string) (default : value) : option value :=
  match d with
  | VDict items =>
      Some (match lookup name items with Some v => v | None => default end)
  | _ => None
  end.

(** Lines 20-57: the dataclasses; their fields hold whatever the file gives. *)
Record DetectionConfig : Type := {
  threshold : value;
  confidence : value;
  yolo_model_path : value;
  cell_phone_class_id : value
}.

Record AlertConfig : Type := {
  images_folder : value;
  audio_file : value;
  window_max_width : value;
  switch_interval : value;
  transition_duration : value
}.

Record UIConfig : Type := {
  button_width : value;
  button_height : value;
  button_continue_text : value;
  button_quit_text : value;
  display_window_name : value;
  display_fps : value;
  quit_key : value
}.

Record AppConfig : Type := {
  detection : DetectionConfig;
  alert : AlertConfig;
  ui : UIConfig;
  log_level : value
}.

Definition default_detection : DetectionConfig :=
  {| threshold := VInt Constants.DETECTION_THRESHOLD;
     confidence := VFloat Constants.DETECTION_CONFIDENCE;
     yolo_model_path := VStr Constants.YOLO_MODEL_PATH;
     cell_phone_class_id := VInt Constants.CELL_PHONE_CLASS_ID |}.

Definition default_alert : AlertConfig :=
  {| images_folder := VStr "horse of wisdom";
     audio_file := VStr "alert_sound.mp3";
     window_max_width := VInt Constants.ALERT_WINDOW_MAX_WIDTH;
     switch_interval := VInt Constants.ALERT_SWITCH_INTERVAL;
     transition_duration := VInt Constants.ALERT_TRANSITION_DURATION |}.

Definition default_ui : UIConfig :=
  {| button_width := VInt Constants.BUTTON_WIDTH;
     button_height := VInt Constants.BUTTON_HEIGHT;
     button_continue_text := VStr Constants.BUTTON_CONTINUE_TEXT;
     button_quit_text := VStr Constants.BUTTON_QUIT_TEXT;
     display_window_name := VStr Constants.DISPLAY_WINDOW_NAME;
     display_fps := VInt Constants.DISPLAY_FPS;
     quit_key := VStr Constants.QUIT_KEY |}.

(** [AppConfig()]. *)
Definition default_config : AppConfig :=
  {| detection := default_detection; alert := default_alert;
     ui := default_ui; log_level := VStr Constants.LOG_LEVEL |}.

(** Lines 89-96; [None] when a statement raises, the configuration then
    being left as it was. *)
Definition load_detection (data : value) (config : AppConfig)
  : option AppConfig :=
  match contains data "detection" with
  | None => None
  | Some false => Some config
  | Some true =>
      match subscript data "detection" with
      | None => None
      | Some det =>
          match get det "threshold" (VInt Constants.DETECTION_THRESHOLD),
                get det "confidence" (VFloat Constants.DETECTION_CONFIDENCE),
                get det "yolo_model_path" (VStr Constants.YOLO_MODEL_PATH),
                get det "cell_phone_class_id" (VInt Constants.CELL_PHONE_CLASS_ID)
          with
          | Some t, Some c, Some m, Some i =>
              Some {| detection := {| threshold := t; confidence := c;
                                      yolo_model_path := m;
                                      cell_phone_class_id := i |};
                      alert := alert config; ui := ui config;
                      log_level := log_level config |}
          | _, _, _, _ => None
          end
      end
  end.

(** Lines 99-107. *)
Definition load_alert (data : value) (config : AppConfig) : option AppConfig :=
  match contains data "alert" with
  | None => None
  | Some false => Some config
  | Some true =>
      match subscript data "alert" with
      | None => None
      | Some section =>
          match get section "images_folder" (images_folder (alert config)),
                get section "audio_file" (VStr "alert_sound.mp3"),
                get section "window_max_width"
                    (VInt Constants.ALERT_WINDOW_MAX_WIDTH),
                get section "switch_interval"
                    (VInt Constants.ALERT_SWITCH_INTERVAL),
                get section "transition_duration"
                    (VInt Constants.ALERT_TRANSITION_DURATION)
          with
          | Some f, Some a, Some w, Some s, Some t =>
              Some {| detection := detection config;
                      alert := {| images_folder := f; audio_file := a;
                                  window_max_width := w; switch_interval := s;
                                  transition_duration := t |};
                      ui := ui config; log_level := log_level config |}
          | _, _, _, _, _ => None
          end
      end
  end.

(** Lines 110-120. *)
Definition load_ui (data : value) (config : AppConfig) : option AppConfig :=
  match contains data "ui" with
  | None => None
  | Some false => Some config
  | Some true =>
      match subscript data "ui" with
      | None => None
      | Some section =>
          match get section "button_width" (VInt Constants.BUTTON_WIDTH),
                get section "button_height" (VInt Constants.BUTTON_HEIGHT),
                get section "button_continue_text"
                    (VStr Constants.BUTTON_CONTINUE_TEXT),
                get section "button_quit_text" (VStr Constants.BUTTON_QUIT_TEXT),
                get section "display_window_name"
                    (VStr Constants.DISPLAY_WINDOW_NAME),
                get section "display_fps" (VInt Constants.DISPLAY_FPS),
                get section "quit_key" (VStr Constants.QUIT_KEY)
          with
          | Some w, Some h, Some c, Some q, Some n, Some f, Some k =>
              Some {| detection := detection config; alert := alert config;
                      ui := {| button_width := w; button_height := h;
                               button_continue_text := c;
                               button_quit_text := q;
                               display_window_name := n; display_fps := f;
                               quit_key := k |};
                      log_level := log_level config |}
          | _, _, _, _, _, _, _ => None
          end
      end
  end.

(** Line 123. *)
Definition load_log_level (data : value) (config : AppConfig)
  : option AppConfig :=
  match get data "log_level" (VStr Constants.LOG_LEVEL) with
  | Some level =>
      Some {| detection := detection config; alert := alert config;
              ui := ui config; log_level := level |}
  | None => None
  end.

(** Lines 87-127: the four steps inside one [try]; the [except] keeps the
    configuration as the steps before the exception left it. *)
Definition apply_file (data : value) (config : AppConfig) : AppConfig :=
  match load_detection data config with
  | None => config
  | Some c1 =>
      match load_alert data c1 with
      | None => c1
      | Some c2 =>
          match load_ui data c2 with
          | None => c2
          | Some c3 =>
              match load_log_level data c3 with
              | None => c3
              | Some c4 => c4
              end
          end
      end
  end.

(** Lines 60-129.  [yaml_available] is [YAML_AVAILABLE], [file_exists] is
    [os.path.exists(config_path)], [parsed] is what [yaml.safe_load] returns,
    [None] when opening or parsing the file raises. *)
Definition load_config (yaml_available file_exists : bool)
           (parsed : option value) : AppConfig :=
  let config := default_config in
  if negb yaml_available then config
  else if negb file_exists then config
  else
    match parsed with
    | None => config
    | Some data => if truthy data then apply_file data config else config
    end.

(** The value of a key of a section of a file, the default when the section
    or the key is missing. *)
Definition setting (items : list (value * value)) (section key : string)
           (default : value) : value :=
  match lookup section items with
  | Some (VDict entries) =>
      match lookup key entries with
      | Some v => v
      | None => default
      end
  | _ => default
  end.

(** A section of a file that is missing or is a mapping. *)
Definition well_formed_section (items : list (value * value)) (section : string)
  : Prop :=
  match lookup section items with
  | None => True
  | Some (VDict _) => True
  | Some _ => False
  end.

End Config.

(** * Properties of the detection loop *)

Section DetectionLoop.

Import App.

Variable threshold : Z.

Lemma last_nonempty_default (c : Z) (cs : list Z) (d d' : Z) :
  last (c :: cs) d = last (c :: cs) d'.
Proof.
  revert c. induction cs as [|x xs IH]; intro c; [reflexivity|].
  change (last (x :: xs) d = last (x :: xs) d'). apply IH.
Qed.

Lemma counter_after_cons (init : Z) (it : iteration) (trace : list iteration) :
  counter_after init (it :: trace) = counter_after (counter_out it) trace.
Proof.
  unfold counter_after. cbn [map].
  destruct (map counter_out trace) as [|c cs] eqn:E; [reflexivity|].
  change (last (c :: cs) init = last (c :: cs) (counter_out it)).
  apply last_nonempty_default.
Qed.

(** One iteration keeps the counter equal to the run, unless the presenter
    asked to quit. *)
Lemma loop_body_run (p : Z) (f : frame) (older : list (frame * iteration)) :
  trailing_run older = p ->
  ended_by_presenter_quit [(f, loop_body threshold p f)] = false ->
  trailing_run ((f, loop_body threshold p f) :: older)
  = counter_out (loop_body threshold p f).
Proof.
  intros Hp. cbn [trailing_run]. unfold ended_by_presenter_quit, skipped, loop_body.
  destruct (ret f); cbn [negb orb]; [|intros _; assumption].
  destruct (detected f) as [d|]; [|intros _; assumption].
  destruct (threshold <=? (if d then p + 1 else 0)) eqn:Ht.
  - destruct (presenter f); cbn; intros Hq; try reflexivity; discriminate.
  - cbn [alert_invoked counter_out]. intros _. destruct d; lia.
Qed.

Lemma loop_body_next_not_quit (p : Z) (f : frame) :
  ctl (loop_body threshold p f) = Next ->
  ended_by_presenter_quit [(f, loop_body threshold p f)] = false.
Proof.
  unfold loop_body, ended_by_presenter_quit.
  destruct (ret f); cbn [negb]; [|reflexivity].
  destruct (detected f) as [d|]; [|reflexivity].
  destruct (threshold <=? _); [|reflexivity].
  destruct (presenter f); cbn; intros; try reflexivity; discriminate.
Qed.

Lemma ended_by_presenter_quit_app (h older : list (frame * iteration)) :
  h <> [] ->
  ended_by_presenter_quit (h ++ older) = ended_by_presenter_quit h.
Proof. destruct h as [|[f it] h]; [congruence|reflexivity]. Qed.

(** The invariant of the loop, from any counter [p] that is the run of the
    history [older] seen so far. *)
Lemma main_loop_run (frames : list frame) :
  forall (p : Z) (older : list (frame * iteration)),
    trailing_run older = p ->
    let trace := main_loop threshold p frames in
    let h := history frames trace ++ older in
    (frames = [] \/ ended_by_presenter_quit h = false) ->
    counter_after p trace = trailing_run h.
Proof.
  unfold history.
  induction frames as [|f rest IH]; intros p older Hp; cbn zeta.
  - intros _. cbn. symmetry; assumption.
  - intros [Hnil|Hq]; [discriminate|].
    cbn [main_loop] in *. set (it := loop_body threshold p f) in *.
    rewrite counter_after_cons.
    destruct (ctl it) eqn:Hc.
    + cbn [combine rev] in *. rewrite <- app_assoc in *. cbn [app] in *.
      apply (IH (counter_out it) ((f, it) :: older)).
      * apply loop_body_run; [assumption|].
        apply loop_body_next_not_quit; assumption.
      * destruct rest as [|g rest']; [left; reflexivity|right; assumption].
    + assert (Hcomb : combine (f :: rest) [it] = [(f, it)])
        by (destruct rest; reflexivity).
      rewrite Hcomb in *. cbn [rev app] in *.
      unfold counter_after. cbn [map last]. subst it.
      symmetry. apply loop_body_run; [assumption|exact Hq].
Qed.

Lemma loop_body_quit (p : Z) (f : frame) (older : list (frame * iteration)) :
  trailing_run older = p ->
  ended_by_presenter_quit [(f, loop_body threshold p f)] = true ->
  counter_out (loop_body threshold p f)
  = unreset_run ((f, loop_body threshold p f) :: older)
  /\ threshold <= counter_out (loop_body threshold p f).
Proof.
  intros Hp. unfold ended_by_presenter_quit, unreset_run, loop_body.
  destruct (ret f); cbn [negb alert_invoked andb]; [|discriminate].
  destruct (detected f) as [d|]; cbn [alert_invoked andb]; [|discriminate].
  destruct (threshold <=? (if d then p + 1 else 0)) eqn:Ht;
    cbn [alert_invoked andb]; [|discriminate].
  apply Z.leb_le in Ht.
  destruct (presenter f); cbn [alert_invoked counter_out andb];
    intros Hq; try discriminate.
  destruct d; split; lia.
Qed.

Lemma main_loop_quit (frames : list frame) :
  forall (p : Z) (older : list (frame * iteration)),
    trailing_run older = p ->
    let trace := main_loop threshold p frames in
    let h := history frames trace ++ older in
    frames <> [] ->
    ended_by_presenter_quit h = true ->
    counter_after p trace = unreset_run h /\ threshold <= counter_after p trace.
Proof.
  unfold history.
  induction frames as [|f rest IH]; intros p older Hp; cbn zeta;
    intros Hne Hq; [congruence|].
  cbn [main_loop] in *. set (it := loop_body threshold p f) in *.
  rewrite counter_after_cons.
  destruct (ctl it) eqn:Hc.
  - cbn [combine rev] in *. rewrite <- app_assoc in *. cbn [app] in *.
    destruct rest as [|g rest'].
    + cbn [combine rev app] in Hq. subst it.
      change (ended_by_presenter_quit [(f, loop_body threshold p f)] = true) in Hq.
      rewrite (loop_body_next_not_quit p f Hc) in Hq. discriminate.
    + apply (IH (counter_out it) ((f, it) :: older)).
      * apply loop_body_run; [assumption|].
        apply loop_body_next_not_quit; assumption.
      * discriminate.
      * assumption.
  - assert (Hcomb : combine (f :: rest) [it] = [(f, it)])
      by (destruct rest; reflexivity).
    rewrite Hcomb in *. cbn [rev app] in *.
    unfold counter_after. cbn [map last]. subst it.
    apply loop_body_quit; [assumption|exact Hq].
Qed.

(** While the loop runs the counter is the run. *)
Lemma main_loop_running (frames : list frame) :
  forall (p : Z) (older : list (frame * iteration)),
    trailing_run older = p ->
    let trace := main_loop threshold p frames in
    still_running frames trace ->
    counter_after p trace = trailing_run (history frames trace ++ older).
Proof.
  unfold history, still_running.
  induction frames as [|f rest IH]; intros p older Hp; cbn zeta.
  - intros _. cbn. symmetry; assumption.
  - cbn [main_loop]. set (it := loop_body threshold p f).
    intros [Hlen Hall]. apply Forall_cons_iff in Hall. destruct Hall as [Hc Hall'].
    rewrite Hc in *. rewrite counter_after_cons.
    cbn [combine rev]. rewrite <- app_assoc. cbn [app].
    apply (IH (counter_out it) ((f, it) :: older)).
    + apply loop_body_run; [assumption|].
      apply loop_body_next_not_quit; assumption.
    + split; [cbn [List.length] in Hlen; congruence|assumption].
Qed.

(** The next frame after a running prefix. *)
Lemma main_loop_snoc (frames : list frame) (f : frame) :
  forall p : Z,
    let trace := main_loop threshold p frames in
    still_running frames trace ->
    main_loop threshold p (frames ++ [f])
    = trace ++ [loop_body threshold (counter_after p trace) f].
Proof.
  unfold still_running.
  induction frames as [|g rest IH]; intros p; cbn zeta.
  - intros _. cbn. destruct (ctl _); reflexivity.
  - cbn [main_loop app]. set (it := loop_body threshold p g).
    intros [Hlen Hall]. apply Forall_cons_iff in Hall. destruct Hall as [Hc Hall'].
    rewrite Hc in *. rewrite counter_after_cons.
    cbn [app]. f_equal. apply IH.
    split; [cbn [List.length] in Hlen; congruence|assumption].
Qed.

(** With a positive threshold the counter of a running loop stays below it. *)
Lemma main_loop_below_threshold (frames : list frame) :
  forall p : Z,
    1 <= threshold -> 0 <= p < threshold ->
    let trace := main_loop threshold p frames in
    still_running frames trace ->
    0 <= counter_after p trace < threshold.
Proof.
  unfold still_running.
  induction frames as [|g rest IH]; intros p Ht Hp; cbn zeta.
  - intros _. exact Hp.
  - cbn [main_loop]. set (it := loop_body threshold p g).
    intros [Hlen Hall]. apply Forall_cons_iff in Hall. destruct Hall as [Hc Hall'].
    rewrite Hc in *. rewrite counter_after_cons.
    apply IH; [assumption| |split; [cbn [List.length] in Hlen; congruence|assumption]].
    subst it. revert Hc. clear - Ht Hp. unfold loop_body.
    destruct (ret g); cbn [negb counter_out]; [|intros _; assumption].
    destruct (detected g) as [d|]; cbn [counter_out]; [|intros _; assumption].
    destruct (threshold <=? (if d then p + 1 else 0)) eqn:E.
    + destruct (presenter g); cbn [counter_out ctl]; intros Hc;
        try discriminate; lia.
    + apply Z.leb_gt in E. cbn [counter_out]. intros _. destruct d; lia.
Qed.

Lemma loop_body_nonneg (p : Z) (f : frame) :
  0 <= p ->
  0 <= counter_out (loop_body threshold p f)
  /\ (threshold <= 0 -> skipped f = false ->
      alert_invoked (loop_body threshold p f) = true).
Proof.
  intros Hp. unfold loop_body, skipped.
  destruct (ret f); cbn [negb orb counter_out alert_invoked];
    [|split; [assumption|intros _ H; discriminate]].
  destruct (detected f) as [d|]; cbn [counter_out alert_invoked];
    [|split; [assumption|intros _ H; discriminate]].
  destruct (threshold <=? (if d then p + 1 else 0)) eqn:E.
  - destruct (presenter f); cbn [counter_out alert_invoked];
      split; try reflexivity; try lia; destruct d; lia.
  - apply Z.leb_gt in E. cbn [counter_out alert_invoked].
    split; [destruct d; lia|]. intros Ht _. destruct d; lia.
Qed.

Lemma main_loop_nonneg (frames : list frame) :
  forall (p : Z) (f : frame) (it : iteration),
    0 <= p ->
    In (f, it) (combine frames (main_loop threshold p frames)) ->
    0 <= counter_out it
    /\ (threshold <= 0 -> skipped f = false -> alert_invoked it = true).
Proof.
  induction frames as [|g rest IH]; intros p f it Hp Hin; [contradiction|].
  cbn [main_loop combine] in Hin. destruct Hin as [Heq|Hin].
  - inversion Heq; subst. apply loop_body_nonneg; assumption.
  - destruct (ctl (loop_body threshold p g)).
    + apply (IH (counter_out (loop_body threshold p g))); [|assumption].
      apply loop_body_nonneg; assumption.
    + destruct rest; contradiction.
Qed.

End DetectionLoop.

(** * The claims about the detection loop *)

Section DetectionLoopClaims.

Import App.

(** C1, as amended.  After any sequence of frames the Detection Counter is
    the length of the current trailing run of detected frames, the run
    starting anew after a frame that was not detected and after a call of
    the presenter that returned "continue" or raised; skipped frames leave
    it alone.  When the presenter returns "quit" the loop is left at once
    and the counter is not reset: it still holds the run that reached the
    threshold. *)
Theorem C1_counter_is_trailing_run (threshold : Z) (frames : list frame) :
  let trace := main threshold frames in
  let h := history frames trace in
  (ended_by_presenter_quit h = false -> final_counter trace = trailing_run h)
  /\ (ended_by_presenter_quit h = true ->
      final_counter trace = unreset_run h /\ threshold <= final_counter trace).
Proof.
  cbn zeta. unfold main, final_counter. split; intros Hq.
  - rewrite <- (app_nil_r (history _ _)).
    apply (main_loop_run threshold frames 0 [] eq_refl).
    right. rewrite app_nil_r. exact Hq.
  - destruct frames as [|f rest]; [discriminate|].
    rewrite <- (app_nil_r (history _ _)).
    apply (main_loop_quit threshold (f :: rest) 0 [] eq_refl);
      [discriminate|].
    rewrite app_nil_r. exact Hq.
Qed.

Lemma C1_counter_is_trailing_run_witness :
  final_counter (main 3 [yes; yes; no; yes; failed_read; yes]) = 2
  /\ final_counter (main 2 [yes; plain_frame true PresenterQuit]) = 2.
Proof.
  split.
  - exact (proj1 (C1_counter_is_trailing_run 3
                    [yes; yes; no; yes; failed_read; yes]) eq_refl).
  - exact (proj1 (proj2 (C1_counter_is_trailing_run 2
                           [yes; plain_frame true PresenterQuit]) eq_refl)).
Defined.

(** C1 as stated fails: the counter is not reset to 0 after every call of
    the presenter.  With threshold 1, one detected frame calls the presenter;
    when it answers "quit", line 149 leaves the loop before line 153 and the
    counter stays 1. *)
Lemma C1_counter_not_reset_on_quit :
  ~ (forall (threshold p : Z) (f : frame),
        alert_invoked (loop_body threshold p f) = true ->
        counter_out (loop_body threshold p f) = 0).
Proof.
  intro H.
  specialize (H 1 0 (plain_frame true PresenterQuit) eq_refl).
  discriminate H.
Qed.

(** C2.  The presenter is called exactly when the counter, once updated for
    the frame, has reached the threshold ([>=], line 142).  With a threshold
    of at least 1 that is exactly on the detected frame that makes the
    trailing run equal to the threshold, never on a shorter run.  For
    threshold 3 and [yes, yes, no, yes, yes, yes] it is called once, after
    the 6th frame, whatever it answers. *)
Theorem C2_alert_exactly_at_threshold (threshold : Z) :
  (forall (p : Z) (f : frame),
      alert_invoked (loop_body threshold p f) = true <->
      exists d : bool,
        ret f = true /\ detected f = Some d
        /\ threshold <= (if d then p + 1 else 0))
  /\ (forall (frames : list frame) (f : frame),
        let trace := main threshold frames in
        still_running frames trace ->
        1 <= threshold ->
        main threshold (frames ++ [f])
        = trace ++ [loop_body threshold (final_counter trace) f]
        /\ (alert_invoked (loop_body threshold (final_counter trace) f) = true
            <-> ret f = true /\ detected f = Some true
                /\ trailing_run (history frames trace) + 1 = threshold))
  /\ (forall o : presenter_outcome,
        alert_frames (main 3 [yes; yes; no; yes; yes; plain_frame true o]) = [6]).
Proof.
  assert (Hstep : forall (p : Z) (f : frame),
             alert_invoked (loop_body threshold p f) = true <->
             exists d : bool,
               ret f = true /\ detected f = Some d
               /\ threshold <= (if d then p + 1 else 0)).
  { intros p f. unfold loop_body.
    destruct (ret f); cbn [negb alert_invoked].
    - destruct (detected f) as [d|]; cbn [alert_invoked].
      + destruct (threshold <=? (if d then p + 1 else 0)) eqn:E.
        * apply Z.leb_le in E. split.
          -- intros _. exists d. auto.
          -- intros _. destruct (presenter f); reflexivity.
        * apply Z.leb_gt in E. cbn [alert_invoked]. split; [discriminate|].
          intros [d' [_ [Hd Hle]]]. inversion Hd; subst. lia.
      + split; [discriminate|]. intros [d [_ [Hd _]]]. discriminate.
    - split; [discriminate|]. intros [d [Hr _]]. discriminate. }
  split; [exact Hstep|]. split.
  - intros frames f trace Hrun Ht. subst trace. unfold main, final_counter in *.
    split; [apply main_loop_snoc; assumption|].
    pose proof (main_loop_running threshold frames 0 [] eq_refl Hrun) as Hc.
    rewrite app_nil_r in Hc.
    pose proof (main_loop_below_threshold threshold frames 0 Ht
                  ltac:(lia) Hrun) as Hb.
    rewrite <- Hc. rewrite Hstep. split.
    + intros [d [Hr [Hd Hle]]]. destruct d; [|lia].
      repeat split; [assumption|assumption|lia].
    + intros [Hr [Hd Heq]]. exists true. repeat split; try assumption. lia.
  - intros []; reflexivity.
Qed.

Lemma C2_alert_exactly_at_threshold_witness :
  alert_invoked (loop_body 3 (final_counter (main 3 [yes; yes])) yes) = true.
Proof.
  assert (Hrun : still_running [yes; yes] (main 3 [yes; yes])).
  { split; [reflexivity|]. repeat constructor. }
  assert (Ht : 1 <= 3) by lia.
  apply (proj2 (proj2 (proj1 (proj2 (C2_alert_exactly_at_threshold 3))
                         [yes; yes] yes Hrun Ht))).
  repeat split.
Defined.

(** C8.  A failed camera read and an exception of the detector are not
    fatal: the frame is skipped, the presenter is not called, the counter
    keeps its value, and the loop goes on with the next frame. *)
Theorem C8_transient_errors_skip_frame
  (threshold p : Z) (f : frame) (rest : list frame) :
  ret f = false \/ (ret f = true /\ detected f = None) ->
  loop_body threshold p f
  = {| counter_out := p; alert_invoked := false; ctl := Next |}
  /\ main_loop threshold p (f :: rest)
     = {| counter_out := p; alert_invoked := false; ctl := Next |}
         :: main_loop threshold p rest.
Proof.
  intros H.
  assert (Hb : loop_body threshold p f
               = {| counter_out := p; alert_invoked := false; ctl := Next |}).
  { unfold loop_body. destruct H as [Hr|[Hr Hd]]; rewrite Hr; cbn [negb].
    - reflexivity.
    - rewrite Hd. reflexivity. }
  split; [exact Hb|]. cbn [main_loop]. rewrite Hb. reflexivity.
Qed.

Lemma C8_transient_errors_skip_frame_witness :
  map counter_out (main_loop 3 2 [failed_read; detector_raises; yes])
  = [2; 2; 0].
Proof.
  rewrite (proj2 (C8_transient_errors_skip_frame 3 2 failed_read
                    [detector_raises; yes] (or_introl eq_refl))).
  rewrite (proj2 (C8_transient_errors_skip_frame 3 2 detector_raises
                    [yes] (or_intror (conj eq_refl eq_refl)))).
  reflexivity.
Defined.

(** C9.  The counter is never negative, so with a threshold of zero or less
    the comparison of line 142 holds on every frame that is processed (read
    and run through the detector without error): the presenter is called on
    each of them, detected or not. *)
Theorem C9_nonpositive_threshold_alerts_every_frame
  (threshold : Z) (frames : list frame) (f : frame) (it : iteration) :
  threshold <= 0 ->
  In (f, it) (combine frames (main threshold frames)) ->
  0 <= counter_out it /\ (skipped f = false -> alert_invoked it = true).
Proof.
  intros Ht Hin.
  destruct (main_loop_nonneg threshold frames 0 f it ltac:(lia) Hin) as [H0 H1].
  split; [exact H0|]. intros Hs. apply H1; assumption.
Qed.

Lemma C9_nonpositive_threshold_alerts_every_frame_witness :
  0 <= counter_out (loop_body 0 0 no)
  /\ (skipped no = false -> alert_invoked (loop_body 0 0 no) = true).
Proof.
  apply (C9_nonpositive_threshold_alerts_every_frame 0 [no; yes] no
           (loop_body 0 0 no)).
  - lia.
  - left. reflexivity.
Defined.

End DetectionLoopClaims.

(** * Properties of the presenter *)

Section Presenter.

Import Alert.

Context {A : Type}.
Variables (cfg : AlertConfig) (horse_images : list A) (img_width : Z).
Variables (btn_continue btn_quit : Rect).

Lemma poll_ignored (fl : flags) (batch : list event) :
  Forall (fun e => ignored btn_continue btn_quit e = true) batch ->
  poll btn_continue btn_quit fl batch = fl.
Proof.
  unfold poll. intros H. revert fl.
  induction H as [|e batch He _ IH]; intro fl; [reflexivity|].
  cbn [fold_left]. rewrite <- (IH fl) at 2. f_equal.
  destruct e as [|key|pos|ty]; cbn [handle_event ignored] in *.
  - discriminate.
  - destruct ((key =? K_q) || (key =? K_ESCAPE)); [discriminate|reflexivity].
  - destruct (collidepoint btn_continue pos); [discriminate|].
    destruct (collidepoint btn_quit pos); [discriminate|reflexivity].
  - reflexivity.
Qed.

(** A batch with one event that counts: only that event decides. *)
Lemma poll_single (fl : flags) (pre post : list event) (e : event) :
  Forall (fun e => ignored btn_continue btn_quit e = true) pre ->
  Forall (fun e => ignored btn_continue btn_quit e = true) post ->
  poll btn_continue btn_quit fl (pre ++ e :: post)
  = handle_event btn_continue btn_quit fl e.
Proof.
  intros Hpre Hpost. unfold poll. rewrite fold_left_app. cbn [fold_left].
  fold (poll btn_continue btn_quit fl pre). rewrite (poll_ignored fl pre Hpre).
  apply poll_ignored. exact Hpost.
Qed.

Lemma render_loop_pass (c : carousel) (fl : flags) (t : tick)
      (rest : list tick) (entry : tick_log) :
  carousel_step cfg horse_images img_width c (now t) = inr entry ->
  draws t = true ->
  render_loop cfg horse_images img_width btn_continue btn_quit c fl (t :: rest)
  = let fl' := poll btn_continue btn_quit fl (events t) in
    if running fl' then
      let (r, l) := render_loop cfg horse_images img_width btn_continue btn_quit
                                (state_after entry) fl' rest in
      (r, entry :: l)
    else (Returned (should_continue fl'), [entry]).
Proof. intros H Hd. cbn [render_loop]. rewrite H, Hd. reflexivity. Qed.

(** The last event of a batch that counts decides, whatever came before. *)
Lemma poll_last (fl : flags) (earlier later : list event) (e : event) :
  Forall (fun e => ignored btn_continue btn_quit e = true) later ->
  poll btn_continue btn_quit fl (earlier ++ e :: later)
  = handle_event btn_continue btn_quit (poll btn_continue btn_quit fl earlier) e.
Proof.
  intros Hlater. unfold poll. rewrite fold_left_app. cbn [fold_left].
  apply poll_ignored. exact Hlater.
Qed.

(** A batch is ignored as a whole, or has a last event that counts. *)
Lemma batch_cases (batch : list event) :
  Forall (fun e => ignored btn_continue btn_quit e = true) batch
  \/ exists (earlier later : list event) (e : event),
       batch = earlier ++ e :: later
       /\ ignored btn_continue btn_quit e = false
       /\ Forall (fun e => ignored btn_continue btn_quit e = true) later.
Proof.
  induction batch as [|a l IH]; [left; constructor|].
  destruct IH as [Hq|[earlier [later [e [-> [He Hl]]]]]].
  - destruct (ignored btn_continue btn_quit a) eqn:Ea.
    + left. constructor; assumption.
    + right. exists [], l, a. auto.
  - right. exists (a :: earlier), later, e. auto.
Qed.

(** A pass in which an exception is raised ends the loop with the flags as
    they stand. *)
Lemma render_loop_raises (c : carousel) (fl : flags) (t : tick)
      (rest : list tick) :
  (forall entry, carousel_step cfg horse_images img_width c (now t) <> inr entry)
  \/ draws t = false ->
  render_loop cfg horse_images img_width btn_continue btn_quit c fl (t :: rest)
  = (Returned (should_continue fl), []).
Proof.
  intros H. cbn [render_loop].
  destruct (carousel_step cfg horse_images img_width c (now t)) as [err|entry];
    [reflexivity|].
  destruct H as [H|H]; [exfalso; exact (H entry eq_refl)|].
  rewrite H. reflexivity.
Qed.

End Presenter.

(** * The claims about the presenter *)

Section PresenterClaims.

Import Alert.

(** C3, as amended.  In a pass of the render loop that comes to its end
    without an exception, all events polled are handled in turn and the last
    one that counts decides how the session ends: with "do not continue" for
    a window-close event; with "continue" for a press of [q] or Escape; with
    "continue" for a click in the continue button; with "do not continue"
    for a click in the quit button outside the continue button.  Events of
    any other type, other keys and clicks outside both buttons are ignored,
    and a pass whose events are all ignored leaves the session running.  A
    pass in which an exception is raised ends the session with
    "continue". *)
Theorem C3_event_verdicts {A : Type} (cfg : AlertConfig) (horse_images : list A)
        (img_width : Z) (btn_continue btn_quit : Rect) (c : carousel)
        (t : tick) (rest : list tick) :
  let quiet := Forall (fun e => ignored btn_continue btn_quit e = true) in
  let session := render_loop cfg horse_images img_width btn_continue btn_quit
                             c initial_flags (t :: rest) in
  (forall entry : tick_log,
      carousel_step cfg horse_images img_width c (now t) = inr entry ->
      draws t = true ->
      (forall (earlier later : list event) (e : event),
          events t = earlier ++ e :: later -> quiet later ->
          (e = QUIT -> session = (Returned false, [entry]))
          /\ (forall key, e = KEYDOWN key -> key = K_q \/ key = K_ESCAPE ->
              session = (Returned true, [entry]))
          /\ (forall pos, e = MOUSEBUTTONDOWN pos ->
              collidepoint btn_continue pos = true ->
              session = (Returned true, [entry]))
          /\ (forall pos, e = MOUSEBUTTONDOWN pos ->
              collidepoint btn_continue pos = false ->
              collidepoint btn_quit pos = true ->
              session = (Returned false, [entry])))
      /\ (quiet (events t) ->
          session
          = let (r, l) := render_loop cfg horse_images img_width btn_continue
                                      btn_quit (state_after entry)
                                      initial_flags rest in
            (r, entry :: l)))
  /\ (forall e : event,
         ignored btn_continue btn_quit e = true
         <-> (exists ty, e = OTHER ty)
             \/ (exists key, e = KEYDOWN key /\ key <> K_q /\ key <> K_ESCAPE)
             \/ (exists pos, e = MOUSEBUTTONDOWN pos
                             /\ collidepoint btn_continue pos = false
                             /\ collidepoint btn_quit pos = false))
  /\ (forall batch : list event,
         quiet batch
         \/ exists (earlier later : list event) (e : event),
              batch = earlier ++ e :: later
              /\ ignored btn_continue btn_quit e = false /\ quiet later)
  /\ ((forall entry : tick_log,
          carousel_step cfg horse_images img_width c (now t) <> inr entry)
      \/ draws t = false ->
      session = (Returned true, [])).
Proof.
  intros quiet session. subst session. split; [|split; [|split]].
  - intros entry Hstep Hdraws.
    rewrite (render_loop_pass _ _ _ _ _ _ _ _ _ _ Hstep Hdraws). cbn zeta.
    split.
    + intros earlier later e He Hlater. rewrite He.
      rewrite (poll_last _ _ _ _ _ _ Hlater).
      repeat split.
      * intros ->. reflexivity.
      * intros key -> [-> | ->]; reflexivity.
      * intros pos -> Hc. cbn [handle_event]. rewrite Hc. reflexivity.
      * intros pos -> Hc Hq. cbn [handle_event]. rewrite Hc, Hq. reflexivity.
    + intros Hq. rewrite (poll_ignored _ _ _ _ Hq). reflexivity.
  - intros e. destruct e as [|key|pos|ty]; cbn [ignored].
    + split; [discriminate|].
      intros [[ty H]|[[key [H _]]|[pos [H _]]]]; discriminate H.
    + split.
      * intros H. right. left. exists key. split; [reflexivity|].
        apply negb_true_iff, orb_false_iff in H. destruct H as [Hq He].
        apply Z.eqb_neq in Hq. apply Z.eqb_neq in He. auto.
      * intros [[ty H]|[[key' [H [Hq He]]]|[pos [H _]]]]; try discriminate H.
        inversion H; subst key'. apply negb_true_iff, orb_false_iff.
        split; apply Z.eqb_neq; assumption.
    + split.
      * intros H. right. right. exists pos. split; [reflexivity|].
        apply andb_true_iff in H. destruct H as [Hc Hq].
        apply negb_true_iff in Hc. apply negb_true_iff in Hq. auto.
      * intros [[ty H]|[[key [H _]]|[pos' [H [Hc Hq]]]]]; try discriminate H.
        inversion H; subst pos'. rewrite Hc, Hq. reflexivity.
    + split; [|reflexivity]. intros _. left. exists ty. reflexivity.
  - intros batch. apply batch_cases.
  - intros H. exact (render_loop_raises _ _ _ _ _ _ _ _ _ H).
Qed.

Lemma C3_event_verdicts_witness :
  fst (render_loop (alert default_config) [tt] 400
         (continue_button (ui default_config) 400)
         (quit_button (ui default_config) 400)
         (initial_carousel 0) initial_flags
         [ {| now := 16; draws := true;
              events := [KEYDOWN K_q; QUIT; OTHER 1024] |} ])
  = Returned false.
Proof.
  assert (Hq : Forall (fun e => ignored (continue_button (ui default_config) 400)
                                        (quit_button (ui default_config) 400) e
                                = true) [OTHER 1024])
    by (repeat constructor).
  eassert (Hstep : carousel_step (alert default_config) [tt] 400
                                 (initial_carousel 0) 16 = inr _)
    by reflexivity.
  rewrite (proj1 (proj1 (proj1 (C3_event_verdicts
                                  (alert default_config) [tt] 400
                                  (continue_button (ui default_config) 400)
                                  (quit_button (ui default_config) 400)
                                  (initial_carousel 0)
                                  {| now := 16; draws := true;
                                     events := [KEYDOWN K_q; QUIT; OTHER 1024] |}
                                  [])
                               _ Hstep eq_refl)
                        [KEYDOWN K_q] [OTHER 1024] QUIT eq_refl Hq) eq_refl).
  reflexivity.
Defined.

(** C3 as stated fails for the quit key: a press of [q] ends the session
    with "continue" (line 290), not with "do not continue".  It fails as
    well when a window-close event is followed in the same batch by a press
    of [q], and for a click in the quit button where the two buttons
    overlap: both end the session with "continue". *)
Lemma C3_quit_key_returns_continue :
  outcome (trigger_alert default_config
             (healthy_session
                [ {| now := 16; draws := true; events := [KEYDOWN K_q] |} ]))
  = Returned true
  /\ outcome (trigger_alert default_config
                (healthy_session
                   [ {| now := 16; draws := true; events := [KEYDOWN K_q] |} ]))
     <> Returned false
  /\ outcome (trigger_alert default_config
                (healthy_session
                   [ {| now := 16; draws := true;
                        events := [QUIT; KEYDOWN K_q] |} ]))
     = Returned true
  /\ collidepoint (quit_button (ui wide_buttons_config) 400) (200, 30) = true
  /\ outcome (trigger_alert wide_buttons_config
                (healthy_session
                   [ {| now := 16; draws := true;
                        events := [MOUSEBUTTONDOWN (200, 30)] |} ]))
     = Returned true.
Proof.
  split; [reflexivity|]. split; [discriminate|]. split; [reflexivity|].
  split; reflexivity.
Qed.




End PresenterClaims.

(** * The image folder *)

Section ImageFolder.

Import Alert.

Lemma endswith_png_not_gif (s : string) :
  endswith s ".png" = true -> endswith s ".gif" = false.
Proof.
  unfold endswith. cbn [String.length].
  destruct (4 <=? String.length s)%nat; cbn [andb]; [|reflexivity].
  intros H. apply String.eqb_eq in H. rewrite H. reflexivity.
Qed.

Lemma sorted_pair (a b : string) :
  String.ltb a b = true -> sorted [b; a] = [a; b] /\ sorted [a; b] = [a; b].
Proof.
  intros H. unfold sorted. cbn.
  unfold NameOrder.leb, String.leb, String.ltb in *.
  rewrite String.compare_antisym.
  destruct (String.compare a b); try discriminate. cbn. auto.
Qed.

Lemma append_frames_all (frames : list Surface) :
  append_frames (map Some frames) = frames.
Proof. induction frames as [|f rest IH]; cbn; [|rewrite IH]; reflexivity. Qed.

Lemma load_entry_other (imageio : bool) (env : folder_env) (fname : string) :
  endswith (lower fname) ".png" = false ->
  endswith (lower fname) ".gif" = false ->
  load_entry imageio env fname = [].
Proof. intros Hp Hg. unfold load_entry. rewrite Hp, Hg. reflexivity. Qed.

Lemma load_entry_png (imageio : bool) (env : folder_env) (fname : string)
      (img : Surface) :
  endswith (lower fname) ".png" = true ->
  image_load env fname = Some img ->
  load_entry imageio env fname = [img].
Proof. intros Hp Hl. unfold load_entry. rewrite Hp, Hl. reflexivity. Qed.

Lemma load_entry_gif_frames (env : folder_env) (fname : string)
      (frames : list Surface) :
  endswith (lower fname) ".gif" = true ->
  mimread env fname = Some (map Some frames) ->
  load_entry true env fname = frames.
Proof.
  intros Hg Hm. unfold load_entry.
  destruct (endswith (lower fname) ".png") eqn:Hp.
  - apply endswith_png_not_gif in Hp. congruence.
  - rewrite Hg, Hm. cbn. apply append_frames_all.
Qed.

Lemma load_entry_gif_first_frame (env : folder_env) (fname : string)
      (img : Surface) :
  endswith (lower fname) ".gif" = true ->
  image_load env fname = Some img ->
  load_entry false env fname = [img].
Proof.
  intros Hg Hl. unfold load_entry.
  destruct (endswith (lower fname) ".png") eqn:Hp.
  - apply endswith_png_not_gif in Hp. congruence.
  - rewrite Hg, Hl. reflexivity.
Qed.

(** C7, as amended.  [load_horse_images] goes through the folder entries in
    sorted-name order, takes the names that end in [.png] or [.gif] whatever
    their case and ignores the others, and yields one entry per PNG.  When
    imageio is available it yields one entry per decoded frame of a GIF;
    when it is not, a GIF yields its first frame only.  So a folder with one
    GIF of four frames, whose name sorts first, and one PNG yields
    [gif frame 0..3, png] with imageio, and [gif frame 0, png] without. *)
Theorem C7_load_horse_images_entries
        (imageio : bool) (env : folder_env) (names : list string) :
  folder_exists env = true ->
  listdir env = Some names ->
  let files := sorted names in
  (Permutation names files
   /\ LocallySorted (fun a b => is_true (String.leb a b)) files
   /\ load_horse_images imageio env = flat_map (load_entry imageio env) files)
  /\ (forall fname : string,
         (endswith (lower fname) ".png" = false ->
          endswith (lower fname) ".gif" = false ->
          load_entry imageio env fname = [])
         /\ (forall img, endswith (lower fname) ".png" = true ->
                         image_load env fname = Some img ->
                         load_entry imageio env fname = [img])
         /\ (forall frames, endswith (lower fname) ".gif" = true ->
                            mimread env fname = Some (map Some frames) ->
                            load_entry true env fname = frames)
         /\ (forall img, endswith (lower fname) ".gif" = true ->
                         image_load env fname = Some img ->
                         load_entry false env fname = [img]))
  /\ (forall (gif png : string) (f0 f1 f2 f3 still_png : Surface),
         names = [png; gif] \/ names = [gif; png] ->
         String.ltb gif png = true ->
         endswith (lower gif) ".gif" = true ->
         endswith (lower png) ".png" = true ->
         mimread env gif = Some [Some f0; Some f1; Some f2; Some f3] ->
         image_load env gif = Some f0 ->
         image_load env png = Some still_png ->
         (imageio = true ->
          load_horse_images imageio env = [f0; f1; f2; f3; still_png])
         /\ (imageio = false ->
             load_horse_images imageio env = [f0; still_png])).
Proof.
  intros Hex Hls files.
  assert (Hload : load_horse_images imageio env
                  = flat_map (load_entry imageio env) files).
  { unfold load_horse_images. rewrite Hex, Hls. reflexivity. }
  split; [|split].
  - split; [apply NameSort.Permuted_sort|].
    split; [apply NameSort.LocallySorted_sort|exact Hload].
  - intros fname. split; [apply load_entry_other|].
    split; [apply load_entry_png|].
    split; [apply load_entry_gif_frames|apply load_entry_gif_first_frame].
  - intros gif png f0 f1 f2 f3 still_png Hnames Hlt Hg Hp Hm Hl0 Hl.
    assert (Hfiles : files = [gif; png]).
    { subst files. destruct (sorted_pair gif png Hlt) as [H1 H2].
      destruct Hnames as [-> | ->]; assumption. }
    rewrite Hload, Hfiles. cbn [flat_map]. rewrite app_nil_r.
    rewrite (load_entry_png imageio env png still_png Hp Hl).
    split; intros ->.
    + rewrite (load_entry_gif_frames env gif [f0; f1; f2; f3] Hg Hm).
      reflexivity.
    + rewrite (load_entry_gif_first_frame env gif f0 Hg Hl0). reflexivity.
Qed.

Lemma C7_load_horse_images_entries_witness :
  load_horse_images true gif_and_png
  = [gif_frame "dance.gif" 0; gif_frame "dance.gif" 1;
     gif_frame "dance.gif" 2; gif_frame "dance.gif" 3; still "horse.png"].
Proof.
  apply (proj1 (proj2 (proj2 (C7_load_horse_images_entries
                                true gif_and_png
                                ["horse.png"%string; "dance.gif"%string]
                                eq_refl eq_refl))
                      "dance.gif"%string "horse.png"%string
                      (gif_frame "dance.gif" 0) (gif_frame "dance.gif" 1)
                      (gif_frame "dance.gif" 2) (gif_frame "dance.gif" 3)
                      (still "horse.png")
                      (or_introl eq_refl) eq_refl eq_refl eq_refl
                      eq_refl eq_refl eq_refl)).
  reflexivity.
Defined.

(** C7 as stated fails without imageio: the same folder, one GIF of four
    frames and one PNG, yields two entries, not five. *)
Lemma C7_gif_first_frame_only_without_imageio :
  List.length (load_horse_images false gif_and_png) = 2%nat
  /\ List.length (load_horse_images false gif_and_png) <> 5%nat.
Proof. split; [reflexivity|discriminate]. Qed.

End ImageFolder.

(** * The indices of the carousel *)

Section CarouselIndices.

Import Alert.

Context {A : Type}.
Variables (cfg : AlertConfig) (horse_images : list A) (img_width : Z).

Let n : Z := Z.of_nat (List.length horse_images).

Lemma getitem_in_range (i : Z) :
  0 <= i < n -> exists a : A, getitem horse_images i = Some a.
Proof.
  intros Hi. unfold getitem.
  destruct (0 <=? i) eqn:E; [|apply Z.leb_gt in E; lia].
  destruct (nth_error horse_images (Z.to_nat i)) as [a|] eqn:Hn;
    [exists a; reflexivity|].
  apply nth_error_None in Hn. subst n. lia.
Qed.

Lemma begin_transition_in_range (c : carousel) (now : Z) :
  0 < n -> in_range n c -> in_range n (begin_transition cfg n c now).
Proof.
  intros Hn [Hi Hx]. unfold begin_transition.
  destruct (begins cfg c now); [|split; assumption].
  split; cbn [idx next_idx]; [assumption|].
  apply Z.mod_pos_bound. assumption.
Qed.

Lemma scaled_blit_in_range (i : Z) (scale : Float64.float) (left : Z -> Z)
      (b : option blit) :
  0 <= i < n ->
  scaled_blit img_width i scale left = inr b -> blit_in_range n b.
Proof.
  intros Hi. unfold scaled_blit.
  destruct (Float64.ltb _ _); [|intros H; inversion H; exact I].
  destruct (pixels img_width scale) as [err|w]; [discriminate|].
  destruct (0 <? w); intros H; inversion H; [exact Hi|exact I].
Qed.

Lemma page_turn_in_range (c : carousel) (progress : Float64.float)
      (pic : picture) :
  in_range n c ->
  page_turn img_width c progress = inr pic -> picture_in_range n pic.
Proof.
  intros [Hi Hx]. unfold page_turn. cbn zeta.
  destruct (scaled_blit img_width (idx c) _ _) as [err|old] eqn:Hold;
    [discriminate|].
  destruct (scaled_blit img_width (next_idx c) _ _) as [err|new] eqn:Hnew;
    [discriminate|].
  intros H. inversion H. split.
  - exact (scaled_blit_in_range _ _ _ _ Hi Hold).
  - exact (scaled_blit_in_range _ _ _ _ Hx Hnew).
Qed.

(** One pass keeps the indices in range and never reads outside the list. *)
Lemma carousel_step_in_range (c : carousel) (now : Z) :
  0 < n -> in_range n c ->
  (exists err : step_error,
      carousel_step cfg horse_images img_width c now = inl err
      /\ err <> IndexError)
  \/ exists entry : tick_log,
      carousel_step cfg horse_images img_width c now = inr entry
      /\ at_time entry = now
      /\ state_before entry = c
      /\ in_range n (state_after entry)
      /\ picture_in_range n (drawn entry).
Proof.
  intros Hn Hc. unfold carousel_step. fold n.
  pose proof (begin_transition_in_range c now Hn Hc) as Hb.
  set (c1 := begin_transition cfg n c now) in *.
  destruct Hb as [Hi Hx].
  destruct (getitem_in_range (idx c1) Hi) as [a Ha].
  destruct (getitem_in_range (next_idx c1) Hx) as [b Hb].
  destruct (transitioning c1).
  - destruct (float_progress cfg c1 now) as [err|shown] eqn:Hf.
    { left. exists err. split; [reflexivity|].
      unfold float_progress, float_div in Hf.
      destruct (transition_duration cfg =? 0);
        [inversion Hf; discriminate|].
      destruct (Float64.finite _); inversion Hf; discriminate. }
    destruct (Qle_bool 1 (progress_at cfg c1 now)).
    + right. cbn [idx]. rewrite Hb. eexists. split; [reflexivity|].
      cbn. repeat split; try apply Hx.
    + rewrite Ha, Hb.
      destruct (page_turn img_width c1 shown) as [err|pic] eqn:Hpic.
      * left. exists err. split; [reflexivity|].
        unfold page_turn, scaled_blit, pixels, float_of_int, int_of_float
          in Hpic.
        repeat match type of Hpic with
               | context [if ?b then _ else _] => destruct b
               | context [match Float64.trunc ?f with _ => _ end] =>
                   destruct (Float64.trunc f)
               | context [match ?f with S754_nan => _ | _ => _ end] =>
                   destruct f
               end;
          inversion Hpic; discriminate.
      * right. eexists. split; [reflexivity|].
        cbn [at_time state_before state_after drawn].
        repeat split; try apply Hi; try apply Hx;
          apply (page_turn_in_range c1 shown pic (conj Hi Hx) Hpic).
  - right. rewrite Ha. eexists. split; [reflexivity|].
    cbn. repeat split; try apply Hi; try apply Hx.
Qed.

Lemma render_loop_in_range (btn_continue btn_quit : Rect) (passes : list tick) :
  forall (c : carousel) (fl : flags),
    0 < n -> in_range n c ->
    Forall (fun e => in_range n (state_before e)
                     /\ in_range n (state_after e)
                     /\ picture_in_range n (drawn e))
           (snd (render_loop cfg horse_images img_width btn_continue btn_quit
                             c fl passes)).
Proof.
  induction passes as [|t rest IH]; intros c fl Hn Hc; [constructor|].
  cbn [render_loop].
  destruct (carousel_step_in_range c (now t) Hn Hc)
    as [[err [Hz _]]|[entry [Hs [_ [Hb [Ha Hp]]]]]].
  - rewrite Hz. constructor.
  - rewrite Hs.
    assert (He : in_range n (state_before entry)
                 /\ in_range n (state_after entry)
                 /\ picture_in_range n (drawn entry))
      by (rewrite Hb; auto).
    destruct (draws t); cbn [negb]; [|constructor].
    destruct (running (poll btn_continue btn_quit fl (events t))).
    + specialize (IH (state_after entry)
                     (poll btn_continue btn_quit fl (events t)) Hn Ha).
      destruct (render_loop _ _ _ _ _ _ _ rest) as [r l].
      cbn [snd] in *. constructor; assumption.
    + cbn [snd]. constructor; [assumption|constructor].
Qed.

End CarouselIndices.

Section CarouselIndicesClaim.

Import Alert.

Lemma scale_images_length (max_width : Z) (ok : bool) (base_img : Surface)
      (images scaled : list Surface) (wh : Z * Z) :
  scale_images max_width ok base_img images = inr (scaled, wh) ->
  List.length scaled = List.length images.
Proof.
  unfold scale_images. destruct (size base_img) as [w h].
  destruct (max_width <? w); [|intros H; inversion H; reflexivity].
  destruct (float_div max_width w) as [err|scale]; [discriminate|].
  destruct (pixels h scale) as [err|new_h]; [discriminate|].
  destruct ok; intros H; inversion H; [apply length_map|reflexivity].
Qed.

(** C10.  Throughout a presenter session the current index and the next
    index are in the range [0, image_count): so are those of every state
    before and after a pass of the render loop and every image a pass draws,
    and with a non-empty image set no pass reads outside the image list. *)
Theorem C10_indices_in_bounds (config : AppConfig) (env : session_env) :
  let s := trigger_alert config env in
  let image_count :=
    Z.of_nat (List.length (load_horse_images (imageio_available env)
                                             (folder env))) in
  Forall (fun e => in_range image_count (state_before e)
                   /\ in_range image_count (state_after e)
                   /\ picture_in_range image_count (drawn e))
         (log s)
  /\ (forall (horse_images : list Surface) (img_width : Z) (c : carousel)
             (now : Z),
         horse_images <> [] ->
         in_range (Z.of_nat (List.length horse_images)) c ->
         carousel_step (alert config) horse_images img_width c now
         <> inl IndexError).
Proof.
  cbn zeta. split.
  - unfold trigger_alert.
    destruct (pygame_init_ok env); cbn [negb]; [|constructor].
    destruct (load_horse_images _ _) as [|base_img others] eqn:Hload;
      [constructor|].
    destruct (scale_images _ _ _ _) as [e|[imgs [w h]]] eqn:Hscale;
      [constructor|].
    destruct (set_mode_ok env); cbn [negb]; [|constructor].
    destruct (font_ok env); cbn [negb]; [|constructor].
    apply scale_images_length in Hscale.
    pose proof (render_loop_in_range (alert config) imgs w
                  (continue_button (ui config) w) (quit_button (ui config) w)
                  (ticks env) (initial_carousel (start_ticks env))
                  initial_flags) as H.
    rewrite Hscale in H.
    destruct (render_loop _ _ _ _ _ _ _ _) as [r l]. cbn [log snd] in *.
    apply H; [cbn [List.length]; lia|].
    unfold in_range, initial_carousel. cbn [idx next_idx List.length]. lia.
  - intros horse_images img_width c now Hne Hc.
    assert (Hn : 0 < Z.of_nat (List.length horse_images))
      by (destruct horse_images; [congruence|cbn [List.length]; lia]).
    destruct (carousel_step_in_range (alert config) horse_images img_width
                c now Hn Hc) as [[err [Hz Herr]]|[entry [Hs _]]];
      [rewrite Hz; congruence|rewrite Hs; discriminate].
Qed.

Lemma C10_indices_in_bounds_witness :
  carousel_step (alert default_config)
                (load_horse_images true gif_and_png) 400
                {| idx := 4; next_idx := 4; transitioning := false;
                   transition_start := 0; last_switch := 0 |} 2000
  <> inl IndexError.
Proof.
  apply (proj2 (C10_indices_in_bounds default_config (healthy_session []))).
  - discriminate.
  - change (Z.of_nat (List.length (load_horse_images true gif_and_png)))
      with (Z.of_nat 5).
    unfold in_range. cbn [idx next_idx]. lia.
Defined.

End CarouselIndicesClaim.

(** * The transition of the carousel *)

Section Progress.

Import Alert.

Local Open Scope Q_scope.









Variable cfg : AlertConfig.
Hypothesis duration_positive : (0 < transition_duration cfg)%Z.






End Progress.

Section Transition.

Import Alert.

Context {A : Type}.
Variables (cfg : AlertConfig) (horse_images : list A) (img_width : Z).
Hypothesis duration_nonneg : 0 <= transition_duration cfg.

Let n : Z := Z.of_nat (List.length horse_images).











End Transition.

Section RenderLoopLog.

Import Alert.

Context {A : Type}.
Variables (cfg : AlertConfig) (horse_images : list A) (img_width : Z).
Variables (btn_continue btn_quit : Rect).




End RenderLoopLog.

Section TransitionClaim.

Import Alert.




(** C5.  The claim holds of a session that is well configured (see the
    theorem above) and line 220 states it of the code: "Calculate transition
    progress (0.0 to 1.0)".  The code breaks it for a transition duration
    below zero, which [load_config] accepts: [min(1.0, ...)] bounds the
    progress from above only.  With a duration of -800 and a switch interval
    of 0 the pass at 16 ms begins a transition with the progress 0 and the
    pass at 32 ms computes the progress -0.02, below 0 and below the
    progress of the pass before. *)
Lemma C5_negative_duration_progress :
  let l := log (trigger_alert negative_duration_config
                  (healthy_session (quiet_passes [16; 32]))) in
  map progress_shown l = [Some (0 # 800); Some (-16 # 800)]
  /\ (-16 # 800 < 0)%Q
  /\ ~ (0 # 800 <= -16 # 800)%Q.
Proof.
  cbn zeta. split; [vm_compute; reflexivity|]. split; [reflexivity|].
  intros H. apply H. reflexivity.
Qed.

End TransitionClaim.

(** * The page turn *)

Section PageTurnGeometry.

Import Alert.

Context {A : Type}.
Variables (cfg : AlertConfig) (horse_images : list A) (img_width : Z).
Variables (btn_continue btn_quit : Rect).


(** Some floats, as Python prints them with [float.hex]: 0.01 is
    0x1.47ae147ae147bp-7, 90.0 is 0x1.68p+6, 101 / 500 is
    0x1.9db22d0e56042p-3 and 500 / 531 is 0x1.e21bf65b99cafp-1. *)
Lemma float64_values :
  Float64.hundredth = S754_finite false 0x147ae147ae147b (-59)
  /\ Float64.ninety = S754_finite false 0x16800000000000 (-46)
  /\ Float64.int_div 101 500 = S754_finite false 0x19db22d0e56042 (-55)
  /\ Float64.int_div 500 531 = S754_finite false 0x1e21bf65b99caf (-53)
  /\ Float64.trunc (Float64.mul (Float64.of_int 531) (Float64.int_div 500 531))
     = Some 499.
Proof. repeat split; vm_compute; reflexivity. Qed.


End PageTurnGeometry.

Section PageTurnClaim.

Import Alert.





End PageTurnClaim.

(** * More on the detection loop *)

Section DetectionLoopRuns.

Import App.

Variable threshold : Z.

Lemma loop_body_skipped (p : Z) (f : frame) :
  skipped f = true ->
  loop_body threshold p f
  = {| counter_out := p; alert_invoked := false; ctl := Next |}.
Proof.
  unfold skipped, loop_body. destruct (ret f); cbn [negb orb]; [|reflexivity].
  destruct (detected f); [discriminate|reflexivity].
Qed.

Lemma combine_nil_r {X Y : Type} (l : list X) : combine l (@nil Y) = [].
Proof. destruct l; reflexivity. Qed.

(** X6.  The frames that are skipped (failed reads, exceptions of the
    detector) are transparent for a whole run: what the loop does on the
    other frames, iteration by iteration, is what it does on the sequence
    with the skipped frames taken out. *)
Theorem skipped_frames_are_transparent (p : Z) (frames : list frame) :
  map snd (filter (fun fi => negb (skipped (fst fi)))
                  (combine frames (main_loop threshold p frames)))
  = main_loop threshold p (filter (fun f => negb (skipped f)) frames).
Proof.
  revert p. induction frames as [|f rest IH]; intro p; [reflexivity|].
  cbn [main_loop filter]. destruct (skipped f) eqn:Hs; cbn [negb].
  - rewrite (loop_body_skipped p f Hs). cbn [ctl combine filter fst].
    rewrite Hs. cbn [negb]. apply IH.
  - cbn [main_loop]. set (it := loop_body threshold p f).
    cbn [combine filter fst]. rewrite Hs. cbn [negb map snd]. f_equal.
    destruct (ctl it).
    + apply IH.
    + rewrite combine_nil_r. reflexivity.
Qed.

(** The alerts of a run that starts at frame [k] with the counter at [p],
    when the last alert was at frame [prev]. *)
Lemma main_loop_spaced (frames : list frame) :
  forall p k prev : Z,
    prev < k -> p <= k - 1 - prev ->
    spaced threshold prev (alert_frames_from k (main_loop threshold p frames)).
Proof.
  induction frames as [|f rest IH]; intros p k prev Hk Hp; [exact I|].
  cbn [main_loop alert_frames_from].
  unfold loop_body.
  destruct (ret f); cbn [negb].
  - destruct (detected f) as [d|].
    + destruct (threshold <=? (if d then p + 1 else 0)) eqn:E.
      * apply Z.leb_le in E.
        assert (Hgap : threshold <= k - prev) by (destruct d; lia).
        destruct (presenter f); cbn [alert_invoked ctl counter_out spaced];
          (split; [exact Hgap|]);
          try (destruct (show_frame f); [apply IH; lia|exact I]).
        exact I.
      * apply Z.leb_gt in E. cbn [alert_invoked ctl counter_out].
        destruct (show_frame f); [|exact I].
        apply IH; [lia|destruct d; lia].
    + cbn [alert_invoked ctl counter_out]. apply IH; lia.
  - cbn [alert_invoked ctl counter_out]. apply IH; lia.
Qed.

(** X4.  Two calls of the presenter are at least [threshold] frames apart,
    and the first one comes no earlier than frame number [threshold]. *)
Theorem alerts_are_spaced (frames : list frame) :
  spaced threshold 0 (alert_frames (main threshold frames)).
Proof. apply main_loop_spaced; lia. Qed.

Lemma mod_next (k : Z) :
  1 <= threshold ->
  k mod threshold
  = if (k - 1) mod threshold + 1 =? threshold then 0
    else (k - 1) mod threshold + 1.
Proof.
  intros Ht.
  pose proof (Z.mod_pos_bound (k - 1) threshold ltac:(lia)) as Hr.
  pose proof (Z.div_mod (k - 1) threshold ltac:(lia)) as Hd.
  destruct ((k - 1) mod threshold + 1 =? threshold) eqn:E.
  - apply Z.eqb_eq in E. symmetry.
    apply (Z.mod_unique k threshold ((k - 1) / threshold + 1) 0); lia.
  - apply Z.eqb_neq in E. symmetry.
    apply (Z.mod_unique k threshold ((k - 1) / threshold)); lia.
Qed.

Lemma main_loop_steady (frames : list frame) :
  forall p k : Z,
    1 <= threshold -> Forall steady frames ->
    p = (k - 1) mod threshold ->
    let trace := main_loop threshold p frames in
    let n := Z.of_nat (List.length frames) in
    still_running frames trace
    /\ (forall a, In a (alert_frames_from k trace)
                  <-> k <= a <= k + n - 1 /\ a mod threshold = 0)
    /\ counter_after p trace = (k - 1 + n) mod threshold.
Proof.
  induction frames as [|f rest IH]; intros p k Ht Hall Hp; cbn zeta.
  - split; [split; [reflexivity|constructor]|].
    split; [intros a; cbn; split; [contradiction|lia]|].
    cbn. rewrite Z.add_0_r. exact Hp.
  - apply Forall_cons_iff in Hall. destruct Hall as [[Hr [Hd [Hq Hsh]]] Hall].
    pose proof (Z.mod_pos_bound (k - 1) threshold ltac:(lia)) as Hb.
    pose proof (mod_next k Ht) as Hk.
    assert (Hbody : loop_body threshold p f
                    = {| counter_out := k mod threshold;
                         alert_invoked := (k mod threshold =? 0);
                         ctl := Next |}).
    { unfold loop_body. rewrite Hr, Hd. cbn [negb]. rewrite Hsh.
      destruct ((k - 1) mod threshold + 1 =? threshold) eqn:E.
      - apply Z.eqb_eq in E. rewrite Hk.
        replace (threshold <=? p + 1) with true
          by (symmetry; apply Z.leb_le; lia).
        destruct (presenter f); try reflexivity. congruence.
      - apply Z.eqb_neq in E. rewrite Hk.
        replace (threshold <=? p + 1) with false
          by (symmetry; apply Z.leb_gt; lia).
        replace ((k - 1) mod threshold + 1 =? 0) with false
          by (symmetry; apply Z.eqb_neq; lia).
        subst p. reflexivity. }
    cbn [main_loop]. rewrite Hbody. cbn [ctl counter_out].
    specialize (IH (k mod threshold) (k + 1) Ht Hall).
    replace (k + 1 - 1) with k in IH by lia.
    specialize (IH eq_refl). cbn zeta in IH.
    destruct IH as [[Hlen Hnext] [Hin Hc]].
    split; [|split].
    + split; [cbn [List.length]; congruence|].
      constructor; [reflexivity|assumption].
    + intros a. cbn [alert_frames_from alert_invoked List.length].
      rewrite Nat2Z.inj_succ.
      destruct (k mod threshold =? 0) eqn:E.
      * apply Z.eqb_eq in E. cbn [In]. rewrite Hin. split.
        -- intros [<-|[H1 H2]]; [split; [lia|assumption]|split; [lia|assumption]].
        -- intros [H1 H2]. destruct (Z.eq_dec k a) as [->|Hne];
             [left; reflexivity|right; split; [lia|assumption]].
      * apply Z.eqb_neq in E. rewrite Hin. split.
        -- intros [H1 H2]. split; [lia|assumption].
        -- intros [H1 H2]. split; [|assumption].
           destruct (Z.eq_dec k a) as [->|Hne]; [contradiction|lia].
    + rewrite counter_after_cons. cbn [counter_out]. rewrite Hc.
      cbn [List.length]. rewrite Nat2Z.inj_succ. f_equal. lia.
Qed.

(** X5.  While a phone stays in view the alert comes back every [threshold]
    frames: over [n] frames in a row that are detected (the presenter not
    asking to quit), with a threshold of at least 1, the presenter is called
    exactly after the frames whose number is a multiple of the threshold,
    and the counter ends at [n mod threshold]. *)
Theorem steady_detection_repeats_the_alert (frames : list frame) :
  1 <= threshold -> Forall steady frames ->
  let trace := main threshold frames in
  let n := Z.of_nat (List.length frames) in
  still_running frames trace
  /\ (forall a, In a (alert_frames trace)
                <-> 1 <= a <= n /\ a mod threshold = 0)
  /\ final_counter trace = n mod threshold.
Proof.
  intros Ht Hall. cbn zeta.
  assert (H0 : 0 = (1 - 1) mod threshold) by (rewrite Z.mod_0_l; lia).
  destruct (main_loop_steady frames 0 1 Ht Hall H0) as [Hrun [Hin Hc]].
  split; [exact Hrun|]. split.
  - intros a. unfold alert_frames, main. rewrite Hin.
    split; intros [H1 H2]; (split; [lia|assumption]).
  - unfold final_counter, main. rewrite Hc. f_equal.
Qed.

End DetectionLoopRuns.

Section StartupAndShutdown.

Import App.

Lemma steady_detection_repeats_the_alert_witness :
  final_counter (main 3 [yes; yes; yes; yes; yes; yes; yes]) = 7 mod 3.
Proof.
  assert (Ht : 1 <= 3) by lia.
  assert (Hall : Forall steady [yes; yes; yes; yes; yes; yes; yes]).
  { repeat constructor; discriminate. }
  exact (proj2 (proj2 (steady_detection_repeats_the_alert 3 _ Ht Hall))).
Defined.

(** X1.  [validate_environment] accepts the machine exactly when the model
    file exists and the camera opens; a missing image folder and a missing
    audio file only log two warnings each.  The camera it probes is released
    once, whether it opened or not, and no camera is touched when the model
    file is missing. *)
Theorem validate_environment_verdict (s : startup) :
  let valid := fst (validate_environment s) in
  let checks := snd (validate_environment s) in
  valid = model_exists s && probe_opens s
  /\ times ProbeCamera checks = (if model_exists s then 1 else 0)%nat
  /\ times ReleaseProbe checks = times ProbeCamera checks
  /\ (valid = true ->
      times LogError checks = 0%nat
      /\ times LogWarning checks
         = ((if images_folder_exists s then 0 else 2)
            + (if audio_exists s then 0 else 2))%nat)
  /\ (valid = false -> (1 <= times LogError checks)%nat).
Proof.
  destruct s as [[] [] [] [] ml co]; cbn;
    repeat split; intros; try reflexivity; try discriminate; lia.
Qed.


(** X3.  [main] gives back what it takes.  Its own camera is opened at most
    once, exactly when validation passed and the model loaded; whenever it
    was opened, [cap.release()] and [cv2.destroyAllWindows()] are each called
    once, as the last two calls, whatever the way out (camera that does not
    open, [break], Ctrl+C, exception of [cap.read()]).  When [main] leaves
    before that, neither is called. *)
Theorem main_releases_the_camera (threshold : Z) (s : startup)
        (frames : list frame) (ending : loop_end) :
  let calls := effects (main_program threshold s frames ending) in
  let opened := model_exists s && probe_opens s && model_loads s in
  times OpenCamera calls = (if opened then 1 else 0)%nat
  /\ times ReleaseCamera calls = times OpenCamera calls
  /\ times DestroyAllWindows calls = times OpenCamera calls
  /\ times ReleaseProbe calls = times ProbeCamera calls
  /\ (opened = true ->
      exists before, calls = before ++ [ReleaseCamera; DestroyAllWindows]).
Proof.
  unfold main_program, validate_environment.
  destruct s as [[] [] [] [] [] []]; cbn;
    destruct (left_by_break (main threshold frames)); destruct ending; cbn;
    repeat split; intros; try reflexivity; try discriminate;
    match goal with
    | |- exists before, ?l = before ++ _ =>
        exists (removelast (removelast l)); reflexivity
    end.
Qed.

End StartupAndShutdown.

(** * The configuration file *)

Section ConfigurationFile.

Import Config.

Lemma apply_file_not_a_dict (data : value) (config : AppConfig) :
  (forall items, data <> VDict items) -> apply_file data config = config.
Proof.
  intros Hnot.
  assert (Hsub : forall name, subscript data name = None)
    by (intros name; destruct data; try reflexivity; exfalso; eapply Hnot; reflexivity).
  assert (Hget : forall name d, get data name d = None)
    by (intros name d; destruct data; try reflexivity; exfalso; eapply Hnot; reflexivity).
  unfold apply_file, load_detection, load_alert, load_ui, load_log_level.
  rewrite !Hsub, !Hget.
  destruct (contains data "detection") as [[]|]; try reflexivity.
  destruct (contains data "alert") as [[]|]; try reflexivity.
  destruct (contains data "ui") as [[]|]; reflexivity.
Qed.

(** X7.  [load_config] returns the defaults of [constants.py] when PyYAML is
    missing, when the file is missing, when reading or parsing it raises,
    when it is empty (or holds any other false value), and whenever its top
    level is not a mapping: a list or a string that happens to contain
    [detection] makes a lookup raise, and the [except] leaves the defaults
    in place. *)
Theorem load_config_falls_back_to_defaults
        (yaml_available file_exists : bool) (parsed : option value) :
  yaml_available = false \/ file_exists = false \/ parsed = None
  \/ (exists data, parsed = Some data
                   /\ (truthy data = false \/ forall items, data <> VDict items)) ->
  load_config yaml_available file_exists parsed = default_config.
Proof.
  unfold load_config.
  intros [->|[->|[->|[data [-> [Hf|Hnot]]]]]].
  - reflexivity.
  - destruct yaml_available; reflexivity.
  - destruct yaml_available, file_exists; reflexivity.
  - destruct yaml_available, file_exists; cbn [negb]; try reflexivity.
    rewrite Hf. reflexivity.
  - destruct yaml_available, file_exists; cbn [negb]; try reflexivity.
    destruct (truthy data); [|reflexivity].
    apply apply_file_not_a_dict. exact Hnot.
Qed.

Lemma load_config_falls_back_to_defaults_witness :
  load_config true true (Some (VList [VStr "detection"; VStr "alert"]))
  = default_config.
Proof.
  apply load_config_falls_back_to_defaults.
  right. right. right. eexists. split; [reflexivity|].
  right. intros items H. discriminate H.
Defined.

(** X8.  Partial override.  For a file whose top level is a mapping and
    whose sections [detection], [alert] and [ui] are each missing or a
    mapping, every setting of the configuration returned is the value the
    file gives for it, whatever its type, and the default when the file has
    no such section or no such key. *)
Theorem load_config_partial_override (items : list (value * value)) :
  well_formed_section items "detection" ->
  well_formed_section items "alert" ->
  well_formed_section items "ui" ->
  load_config true true (Some (VDict items))
  = {| detection :=
         {| threshold := setting items "detection" "threshold"
                                 (VInt Constants.DETECTION_THRESHOLD);
            confidence := setting items "detection" "confidence"
                                  (VFloat Constants.DETECTION_CONFIDENCE);
            yolo_model_path := setting items "detection" "yolo_model_path"
                                       (VStr Constants.YOLO_MODEL_PATH);
            cell_phone_class_id :=
              setting items "detection" "cell_phone_class_id"
                      (VInt Constants.CELL_PHONE_CLASS_ID) |};
       alert :=
         {| images_folder := setting items "alert" "images_folder"
                                     (VStr "horse of wisdom");
            audio_file := setting items "alert" "audio_file"
                                  (VStr "alert_sound.mp3");
            window_max_width := setting items "alert" "window_max_width"
                                        (VInt Constants.ALERT_WINDOW_MAX_WIDTH);
            switch_interval := setting items "alert" "switch_interval"
                                       (VInt Constants.ALERT_SWITCH_INTERVAL);
            transition_duration :=
              setting items "alert" "transition_duration"
                      (VInt Constants.ALERT_TRANSITION_DURATION) |};
       ui :=
         {| button_width := setting items "ui" "button_width"
                                    (VInt Constants.BUTTON_WIDTH);
            button_height := setting items "ui" "button_height"
                                     (VInt Constants.BUTTON_HEIGHT);
            button_continue_text :=
              setting items "ui" "button_continue_text"
                      (VStr Constants.BUTTON_CONTINUE_TEXT);
            button_quit_text := setting items "ui" "button_quit_text"
                                        (VStr Constants.BUTTON_QUIT_TEXT);
            display_window_name :=
              setting items "ui" "display_window_name"
                      (VStr Constants.DISPLAY_WINDOW_NAME);
            display_fps := setting items "ui" "display_fps"
                                   (VInt Constants.DISPLAY_FPS);
            quit_key := setting items "ui" "quit_key"
                                (VStr Constants.QUIT_KEY) |};
       log_level := match lookup "log_level" items with
                    | Some level => level
                    | None => VStr Constants.LOG_LEVEL
                    end |}.
Proof.
  unfold well_formed_section, setting. intros Hd Ha Hu.
  destruct items as [|item rest]; [reflexivity|].
  unfold load_config. cbn [negb truthy].
  set (file := item :: rest) in *.
  unfold apply_file, load_detection, load_alert, load_ui, load_log_level.
  cbn [contains subscript get].
  destruct (lookup "detection" file) as [[]|]; try contradiction;
    destruct (lookup "alert" file) as [[]|]; try contradiction;
    destruct (lookup "ui" file) as [[]|]; try contradiction;
    reflexivity.
Qed.

Lemma load_config_partial_override_witness :
  threshold (detection (load_config true true
    (Some (VDict [(VStr "detection", VDict [(VStr "threshold", VInt 5)]);
                  (VStr "log_level", VStr "DEBUG")]))))
  = VInt 5
  /\ confidence (detection (load_config true true
       (Some (VDict [(VStr "detection", VDict [(VStr "threshold", VInt 5)]);
                     (VStr "log_level", VStr "DEBUG")]))))
     = VFloat (1 # 2).
Proof.
  rewrite (load_config_partial_override
             [(VStr "detection", VDict [(VStr "threshold", VInt 5)]);
              (VStr "log_level", VStr "DEBUG")] I I I).
  split; reflexivity.
Defined.

(** X9.  A section that is not a mapping stops the loading where it stands:
    the sections read before it keep the values of the file, and everything
    after it, the log level included, stays at its default even when the
    file sets it.  Here for a good [detection] section followed by an
    [alert] entry that is not a mapping. *)
Theorem load_config_stops_at_a_bad_section
        (items entries : list (value * value)) (bad : value) :
  lookup "detection" items = Some (VDict entries) ->
  lookup "alert" items = Some bad ->
  (forall m, bad <> VDict m) ->
  load_config true true (Some (VDict items))
  = {| detection :=
         {| threshold := setting items "detection" "threshold"
                                 (VInt Constants.DETECTION_THRESHOLD);
            confidence := setting items "detection" "confidence"
                                  (VFloat Constants.DETECTION_CONFIDENCE);
            yolo_model_path := setting items "detection" "yolo_model_path"
                                       (VStr Constants.YOLO_MODEL_PATH);
            cell_phone_class_id :=
              setting items "detection" "cell_phone_class_id"
                      (VInt Constants.CELL_PHONE_CLASS_ID) |};
       alert := default_alert;
       ui := default_ui;
       log_level := VStr Constants.LOG_LEVEL |}.
Proof.
  intros Hd Ha Hbad. unfold setting. rewrite Hd.
  destruct items as [|item rest]; [discriminate|].
  unfold load_config. cbn [negb truthy].
  set (file := item :: rest) in *.
  unfold apply_file, load_detection, load_alert.
  cbn [contains subscript]. rewrite Hd, Ha. cbn [get].
  destruct bad; try reflexivity.
  exfalso. eapply Hbad. reflexivity.
Qed.

Lemma load_config_stops_at_a_bad_section_witness :
  log_level (load_config true true
    (Some (VDict [(VStr "detection", VDict [(VStr "threshold", VInt 5)]);
                  (VStr "alert", VInt 3);
                  (VStr "log_level", VStr "DEBUG")])))
  = VStr "INFO".
Proof.
  assert (Hbad : forall m, VInt 3 <> VDict m) by (intros m H; discriminate H).
  rewrite (load_config_stops_at_a_bad_section
             [(VStr "detection", VDict [(VStr "threshold", VInt 5)]);
              (VStr "alert", VInt 3);
              (VStr "log_level", VStr "DEBUG")]
             [(VStr "threshold", VInt 5)] (VInt 3) eq_refl eq_refl Hbad).
  reflexivity.
Defined.

End ConfigurationFile.

(** * More on the presenter: events and buttons *)

Section EventsAndButtons.

Import Alert.

Variables (btn_continue btn_quit : Rect).

Lemma handle_event_ignored (fl : flags) (e : event) :
  ignored btn_continue btn_quit e = true ->
  handle_event btn_continue btn_quit fl e = fl.
Proof.
  destruct e as [|key|pos|ty]; cbn [handle_event ignored].
  - discriminate.
  - destruct ((key =? K_q) || (key =? K_ESCAPE)); [discriminate|reflexivity].
  - destruct (collidepoint btn_continue pos); [discriminate|].
    destruct (collidepoint btn_quit pos); [discriminate|reflexivity].
  - reflexivity.
Qed.

Lemma handle_event_deciding (fl fl' : flags) (e : event) :
  ignored btn_continue btn_quit e = false ->
  handle_event btn_continue btn_quit fl e
  = handle_event btn_continue btn_quit fl' e.
Proof.
  destruct e as [|key|pos|ty]; cbn [handle_event ignored].
  - reflexivity.
  - destruct ((key =? K_q) || (key =? K_ESCAPE)); [reflexivity|discriminate].
  - destruct (collidepoint btn_continue pos); [reflexivity|].
    destruct (collidepoint btn_quit pos); [reflexivity|discriminate].
  - discriminate.
Qed.

Lemma poll_from (fl : flags) (batch : list event) :
  forall found : option event,
    fold_left (handle_event btn_continue btn_quit) batch
              (match found with
               | Some e => handle_event btn_continue btn_quit fl e
               | None => fl
               end)
    = match fold_left (fun found e => if ignored btn_continue btn_quit e
                                      then found else Some e) batch found with
      | Some e => handle_event btn_continue btn_quit fl e
      | None => fl
      end.
Proof.
  induction batch as [|e rest IH]; intro found; [reflexivity|].
  cbn [fold_left]. rewrite <- IH. f_equal.
  destruct (ignored btn_continue btn_quit e) eqn:E.
  - apply handle_event_ignored. exact E.
  - apply handle_event_deciding. exact E.
Qed.

(** X10.  When several events of one poll count, the last one decides: the
    flags after a batch are those the last event that is not ignored sets,
    and they are unchanged when every event of the batch is ignored.  So a
    window-close followed in the same batch by a click on the continue
    button keeps the monitoring going. *)
Theorem last_event_of_a_batch_decides (fl : flags) (batch : list event) :
  poll btn_continue btn_quit fl batch
  = match last_deciding btn_continue btn_quit batch with
    | Some e => handle_event btn_continue btn_quit fl e
    | None => fl
    end.
Proof. exact (poll_from fl batch None). Qed.

Lemma handle_event_stop (fl : flags) (e : event) :
  should_continue fl = true ->
  should_continue (handle_event btn_continue btn_quit fl e) = true
  \/ asks_to_stop btn_continue btn_quit e.
Proof.
  intros Hfl. unfold asks_to_stop.
  destruct e as [|key|pos|ty]; cbn [handle_event].
  - right. left. reflexivity.
  - left. destruct ((key =? K_q) || (key =? K_ESCAPE)); [reflexivity|exact Hfl].
  - destruct (collidepoint btn_continue pos) eqn:Ec; [left; reflexivity|].
    destruct (collidepoint btn_quit pos) eqn:Eq; [|left; exact Hfl].
    right. right. exists pos. auto.
  - left. exact Hfl.
Qed.

Lemma poll_stop (batch : list event) :
  forall fl : flags,
    should_continue fl = true ->
    should_continue (poll btn_continue btn_quit fl batch) = true
    \/ exists e, In e batch /\ asks_to_stop btn_continue btn_quit e.
Proof.
  unfold poll.
  induction batch as [|e rest IH]; intros fl Hfl; [left; exact Hfl|].
  cbn [fold_left].
  destruct (handle_event_stop fl e Hfl) as [H|H].
  - destruct (IH _ H) as [H'|[e' [Hin H']]]; [left; exact H'|].
    right. exists e'. split; [right; exact Hin|exact H'].
  - right. exists e. split; [left; reflexivity|exact H].
Qed.

Lemma render_loop_stop {A : Type} (cfg : AlertConfig) (horse_images : list A)
      (img_width : Z) (passes : list tick) :
  forall (c : carousel) (fl : flags),
    should_continue fl = true ->
    fst (render_loop cfg horse_images img_width btn_continue btn_quit c fl passes)
    = Returned false ->
    exists t e, In t passes /\ In e (events t)
                /\ asks_to_stop btn_continue btn_quit e.
Proof.
  induction passes as [|t rest IH]; intros c fl Hfl; [discriminate|].
  cbn [render_loop].
  destruct (carousel_step cfg horse_images img_width c (now t)) as [err|entry].
  - cbn [fst]. rewrite Hfl. discriminate.
  - destruct (draws t); cbn [negb];
      [|cbn [fst]; rewrite Hfl; discriminate].
    destruct (poll_stop (events t) fl Hfl) as [Hp|[e [Hin He]]].
    + destruct (running (poll btn_continue btn_quit fl (events t))).
      * specialize (IH (state_after entry)
                       (poll btn_continue btn_quit fl (events t)) Hp).
        destruct (render_loop _ _ _ _ _ _ _ rest) as [r l]. cbn [fst] in *.
        intros Hr. destruct (IH Hr) as [t' [e' [Ht' He']]].
        exists t', e'. split; [right; exact Ht'|exact He'].
      * cbn [fst]. rewrite Hp. discriminate.
    + intros _. exists t, e. split; [left; reflexivity|]. split; assumption.
Qed.

End EventsAndButtons.

Section PresenterVerdict.

Import Alert.

(** X11.  [trigger_alert] tells the host to stop monitoring only on the
    user's request: it returns [False] only if the window was opened and, in
    some pass of the render loop, the window was closed or the mouse was
    pressed on the quit button of that window outside its continue button.
    No failure and no key makes it return [False]. *)
Theorem trigger_alert_stops_only_on_request
        (config : AppConfig) (env : session_env) :
  outcome (trigger_alert config env) = Returned false ->
  exists (img_width img_height : Z) (t : tick) (e : event),
    In (CallSetMode (img_width, img_height)) (calls (trigger_alert config env))
    /\ In t (ticks env) /\ In e (events t)
    /\ asks_to_stop (continue_button (ui config) img_width)
                    (quit_button (ui config) img_width) e.
Proof.
  unfold trigger_alert.
  destruct (pygame_init_ok env); cbn [negb outcome]; [|discriminate].
  destruct (load_horse_images _ _) as [|base_img others];
    cbn [outcome]; [discriminate|].
  destruct (scale_images _ _ _ _) as [err|[imgs [w h]]];
    cbn [outcome]; [discriminate|].
  destruct (set_mode_ok env); cbn [negb outcome]; [|discriminate].
  destruct (font_ok env); cbn [negb outcome]; [|discriminate].
  pose proof (render_loop_stop (continue_button (ui config) w)
                (quit_button (ui config) w) (alert config) imgs w (ticks env)
                (initial_carousel (start_ticks env)) initial_flags eq_refl) as H.
  destruct (render_loop _ _ _ _ _ _ _ _) as [r l]. cbn [outcome calls fst] in *.
  intros Hr. destruct (H Hr) as [t [e He]].
  exists w, h, t, e. split; [cbn; auto|exact He].
Qed.

Lemma trigger_alert_stops_only_on_request_witness :
  exists (img_width img_height : Z) (t : tick) (e : event),
    In (CallSetMode (img_width, img_height))
       (calls (trigger_alert default_config
                 (healthy_session
                    [ {| now := 16; draws := true; events := [QUIT] |} ])))
    /\ In t (ticks (healthy_session
                      [ {| now := 16; draws := true; events := [QUIT] |} ]))
    /\ In e (events t)
    /\ asks_to_stop (continue_button (ui default_config) img_width)
                    (quit_button (ui default_config) img_width) e.
Proof.
  apply (trigger_alert_stops_only_on_request default_config
           (healthy_session
              [ {| now := 16; draws := true; events := [QUIT] |} ])).
  vm_compute. reflexivity.
Defined.

(** X12.  The two buttons.  With a button width of at most 180 no point lies
    in both buttons, so a press on the quit button always ends the
    monitoring.  With a wider button (and a height above 0) the buttons
    overlap: the top left corner of the quit button lies in the continue
    button too, and a press there counts as "continue". *)
Theorem buttons_overlap_beyond_180 (cfg : UIConfig) (img_width : Z) :
  let btn_continue := continue_button cfg img_width in
  let btn_quit := quit_button cfg img_width in
  (button_width cfg <= 180 ->
   forall pos, collidepoint btn_quit pos = true ->
               collidepoint btn_continue pos = false
               /\ forall fl, handle_event btn_continue btn_quit fl
                                          (MOUSEBUTTONDOWN pos)
                             = {| running := false; should_continue := false |})
  /\ (180 < button_width cfg -> 0 < button_height cfg ->
      let corner := (rect_x btn_quit, rect_y btn_quit) in
      collidepoint btn_quit corner = true
      /\ collidepoint btn_continue corner = true
      /\ forall fl, handle_event btn_continue btn_quit fl
                                 (MOUSEBUTTONDOWN corner)
                    = {| running := false; should_continue := true |}).
Proof.
  cbn zeta. split.
  - intros Hw pos Hq.
    assert (Hc : collidepoint (continue_button cfg img_width) pos = false).
    { unfold collidepoint, continue_button, quit_button, centered_rect in *.
      cbn [rect_x rect_y rect_w rect_h fst snd] in *.
      apply andb_true_iff in Hq. destruct Hq as [Hq _].
      apply andb_true_iff in Hq. destruct Hq as [Hq _].
      apply andb_true_iff in Hq. destruct Hq as [Hq _].
      apply Z.leb_le in Hq.
      apply andb_false_iff. left. apply andb_false_iff. left.
      apply andb_false_iff. right. apply Z.ltb_ge.
      revert Hq. generalize (img_width / 2) (button_width cfg / 2).
      intros half_width half_button Hq. lia. }
    split; [exact Hc|]. intros fl. cbn [handle_event]. rewrite Hc, Hq.
    reflexivity.
  - intros Hw Hh.
    assert (Hq : collidepoint (quit_button cfg img_width)
                   (rect_x (quit_button cfg img_width),
                    rect_y (quit_button cfg img_width)) = true).
    { unfold collidepoint, quit_button, centered_rect.
      cbn [rect_x rect_y rect_w rect_h fst snd].
      generalize (img_width / 2) (button_width cfg / 2)
                 (button_height cfg / 2).
      intros half_width half_button half_height.
      repeat (apply andb_true_iff; split);
        try (apply Z.leb_le; lia); apply Z.ltb_lt; lia. }
    assert (Hc : collidepoint (continue_button cfg img_width)
                   (rect_x (quit_button cfg img_width),
                    rect_y (quit_button cfg img_width)) = true).
    { unfold collidepoint, continue_button, quit_button, centered_rect.
      cbn [rect_x rect_y rect_w rect_h fst snd].
      generalize (img_width / 2) (button_width cfg / 2)
                 (button_height cfg / 2).
      intros half_width half_button half_height.
      repeat (apply andb_true_iff; split);
        try (apply Z.leb_le; lia); apply Z.ltb_lt; lia. }
    split; [exact Hq|]. split; [exact Hc|].
    intros fl. cbn [handle_event]. rewrite Hc. reflexivity.
Qed.

Lemma buttons_overlap_beyond_180_witness :
  collidepoint (continue_button (ui default_config) 400) (210, 30) = false.
Proof.
  assert (Hw : button_width (ui default_config) <= 180)
    by (vm_compute; intro H; discriminate H).
  apply (proj1 (buttons_overlap_beyond_180 (ui default_config) 400) Hw (210, 30)).
  reflexivity.
Defined.

End PresenterVerdict.

(** * More on the image folder *)

Section ImageFolderOrder.

Import Alert.

Lemma ascii_compare_trans (x y z : ascii) :
  Ascii.compare x y <> Gt -> Ascii.compare y z <> Gt ->
  Ascii.compare x z <> Gt
  /\ (Ascii.compare x z = Eq ->
      Ascii.compare x y = Eq /\ Ascii.compare y z = Eq).
Proof.
  unfold Ascii.compare.
  generalize (N_of_ascii x) (N_of_ascii y) (N_of_ascii z). intros a b c.
  intros Hxy Hyz.
  destruct (N.compare_spec a b) as [Eab|Lab|Gab];
    destruct (N.compare_spec b c) as [Ebc|Lbc|Gbc];
    destruct (N.compare_spec a c) as [Eac|Lac|Gac];
    try congruence; try lia;
    (split; [congruence|intros H; try discriminate H; auto]).
Qed.

Lemma string_compare_trans (s1 : string) :
  forall s2 s3 : string,
    String.compare s1 s2 <> Gt -> String.compare s2 s3 <> Gt ->
    String.compare s1 s3 <> Gt.
Proof.
  induction s1 as [|x s1 IH]; intros [|y s2] [|z s3]; cbn;
    try congruence.
  intros H1 H2.
  destruct (Ascii.compare x y) eqn:Exy; try congruence;
    destruct (Ascii.compare y z) eqn:Eyz; try congruence;
    destruct (ascii_compare_trans x y z) as [Hle Heq];
    try (rewrite Exy; congruence); try (rewrite Eyz; congruence);
    destruct (Ascii.compare x z) eqn:Exz; try congruence;
    try (destruct (Heq eq_refl); congruence).
  apply IH with s2; assumption.
Qed.

Lemma string_leb_trans (s1 s2 s3 : string) :
  String.leb s1 s2 = true -> String.leb s2 s3 = true ->
  String.leb s1 s3 = true.
Proof.
  unfold String.leb. intros H1 H2.
  pose proof (string_compare_trans s1 s2 s3) as H.
  destruct (String.compare s1 s2); try discriminate;
    destruct (String.compare s2 s3); try discriminate;
    destruct (String.compare s1 s3); try reflexivity;
    exfalso; apply H; congruence.
Qed.

(** Two sorted lists of names with the same names are the same list. *)
Lemma sorted_names_unique (l1 : list string) :
  forall l2 : list string,
    StronglySorted (fun a b => is_true (String.leb a b)) l1 ->
    StronglySorted (fun a b => is_true (String.leb a b)) l2 ->
    Permutation l1 l2 -> l1 = l2.
Proof.
  induction l1 as [|a l1 IH]; intros l2 H1 H2 Hp.
  - symmetry. apply Permutation_nil. exact Hp.
  - destruct l2 as [|b l2].
    + apply Permutation_sym, Permutation_nil in Hp. discriminate Hp.
    + apply StronglySorted_inv in H1. destruct H1 as [H1 Ha].
      apply StronglySorted_inv in H2. destruct H2 as [H2 Hb].
      assert (Hab : a = b).
      { assert (Hina : In a (b :: l2))
          by (apply (Permutation_in a Hp); left; reflexivity).
        assert (Hinb : In b (a :: l1))
          by (apply (Permutation_in b (Permutation_sym Hp)); left; reflexivity).
        destruct Hina as [->|Hina]; [reflexivity|].
        destruct Hinb as [->|Hinb]; [reflexivity|].
        rewrite Forall_forall in Ha, Hb.
        apply String.leb_antisym; [apply Ha|apply Hb]; assumption. }
      subst b. f_equal. apply IH; try assumption.
      apply Permutation_cons_inv with a. exact Hp.
Qed.

Lemma sorted_permutation (names names' : list string) :
  Permutation names names' -> sorted names = sorted names'.
Proof.
  intros Hp. unfold sorted.
  assert (Htrans : Transitive (fun a b => is_true (String.leb a b)))
    by (intros a b c; apply string_leb_trans).
  apply sorted_names_unique.
  - apply NameSort.StronglySorted_sort. exact Htrans.
  - apply NameSort.StronglySorted_sort. exact Htrans.
  - apply Permutation_trans with names;
      [apply Permutation_sym, NameSort.Permuted_sort|].
    apply Permutation_trans with names';
      [exact Hp|apply NameSort.Permuted_sort].
Qed.

(** X13.  The images loaded do not depend on the order in which
    [os.listdir] gives the names: two listings with the same names yield the
    same images in the same order. *)
Theorem load_horse_images_ignores_listing_order
        (imageio : bool) (env : folder_env) (names names' : list string) :
  Permutation names names' ->
  load_horse_images imageio (with_listing env names)
  = load_horse_images imageio (with_listing env names').
Proof.
  intros Hp. unfold load_horse_images, with_listing.
  cbn [folder_exists listdir].
  destruct (folder_exists env); cbn [negb]; [|reflexivity].
  rewrite (sorted_permutation names names' Hp). reflexivity.
Qed.

Lemma load_horse_images_ignores_listing_order_witness :
  load_horse_images true
    (with_listing gif_and_png ["horse.png"%string; "dance.gif"%string])
  = load_horse_images true
      (with_listing gif_and_png ["dance.gif"%string; "horse.png"%string]).
Proof.
  apply load_horse_images_ignores_listing_order.
  apply perm_swap.
Defined.

Lemma flat_map_nil {X Y : Type} (f : X -> list Y) (l : list X) :
  Forall (fun a => f a = []) l -> flat_map f l = [].
Proof.
  induction 1 as [|a l Ha _ IH]; [reflexivity|].
  cbn [flat_map]. rewrite Ha, IH. reflexivity.
Qed.

(** X14.  A folder that is missing, cannot be listed, or holds no name
    ending in [.png] or [.gif] (a folder of [.jpg] files, say) yields no
    image, and the alert is then a no-op: [trigger_alert] returns "continue"
    without opening a window. *)
Theorem folder_without_images_disables_the_alert
        (config : AppConfig) (env : session_env) :
  pygame_init_ok env = true ->
  folder_exists (folder env) = false
  \/ listdir (folder env) = None
  \/ (exists names, listdir (folder env) = Some names
                    /\ Forall (fun fname => image_name fname = false) names) ->
  load_horse_images (imageio_available env) (folder env) = []
  /\ outcome (trigger_alert config env) = Returned true
  /\ opens_display (trigger_alert config env) = false.
Proof.
  intros Hinit Hfolder.
  assert (Hload : load_horse_images (imageio_available env) (folder env) = []).
  { unfold load_horse_images.
    destruct Hfolder as [->|[Hl|[names [Hl Hall]]]]; [reflexivity| |].
    - rewrite Hl. destruct (folder_exists (folder env)); reflexivity.
    - rewrite Hl. destruct (folder_exists (folder env)); cbn [negb];
        [|reflexivity].
      apply flat_map_nil. rewrite Forall_forall in *. intros fname Hin.
      assert (Hin' : In fname names).
      { apply (Permutation_in fname
                 (Permutation_sym (NameSort.Permuted_sort names))).
        exact Hin. }
      specialize (Hall fname Hin'). unfold image_name in Hall.
      apply orb_false_iff in Hall. destruct Hall as [Hp Hg].
      apply load_entry_other; assumption. }
  split; [exact Hload|].
  unfold trigger_alert. rewrite Hinit, Hload. cbn. split; reflexivity.
Qed.

Lemma folder_without_images_disables_the_alert_witness :
  outcome (trigger_alert default_config
             {| pygame_init_ok := true; imageio_available := true;
                folder := readable_folder
                            ["horse.jpg"%string; "notes.txt"%string]
                            (fun _ => 0%nat);
                audio_found := true; smoothscale_ok := true;
                set_mode_ok := true; font_ok := true; warning_font_ok := true;
                start_ticks := 0; ticks := [] |})
  = Returned true.
Proof.
  assert (Hfolder :
            exists names,
              listdir (readable_folder
                         ["horse.jpg"%string; "notes.txt"%string]
                         (fun _ => 0%nat)) = Some names
              /\ Forall (fun fname => image_name fname = false) names).
  { eexists. split; [reflexivity|]. repeat constructor. }
  exact (proj1 (proj2 (folder_without_images_disables_the_alert
                         default_config
                         {| pygame_init_ok := true; imageio_available := true;
                            folder := readable_folder
                                        ["horse.jpg"%string; "notes.txt"%string]
                                        (fun _ => 0%nat);
                            audio_found := true; smoothscale_ok := true;
                            set_mode_ok := true; font_ok := true;
                            warning_font_ok := true;
                            start_ticks := 0; ticks := [] |}
                         eq_refl (or_intror (or_intror Hfolder))))).
Defined.

End ImageFolderOrder.

(** * More on the presenter: the window and the carousel *)

Section WindowSize.

Import Alert.



End WindowSize.

Section CarouselOrder.

Import Alert.

Context {A : Type}.
Variables (cfg : AlertConfig) (horse_images : list A) (img_width : Z).
Variables (btn_continue btn_quit : Rect).

Let n : Z := Z.of_nat (List.length horse_images).






(** X18.  A transition duration of 0 ends the session by itself: the passes
    before the first switch is due are drawn as usual, and the pass at which
    it is due divides by zero; the exception is caught and the presenter
    returns "continue", whatever events that pass and the later ones
    bring.  The presenter returns "continue" as well when a call of pygame
    raises in one of the passes before: the log then stops at that pass. *)
Theorem zero_duration_ends_the_session
        (start : Z) (early : list tick) (t : tick) (rest : list tick) :
  transition_duration cfg = 0 ->
  horse_images <> [] ->
  Forall (idle_pass cfg btn_continue btn_quit start) early ->
  switch_interval cfg <= now t - start ->
  exists log,
    render_loop cfg horse_images img_width btn_continue btn_quit
                (initial_carousel start) initial_flags (early ++ t :: rest)
    = (Returned true, log)
    /\ (Forall (fun p => draws p = true) early ->
        List.length log = List.length early)
    /\ (List.length log <= List.length early)%nat.
Proof.
  intros Hd Hne Hidle Hdue.
  assert (Hfirst : exists a, getitem horse_images 0 = Some a)
    by (destruct horse_images as [|a l]; [congruence|exists a; reflexivity]).
  destruct Hfirst as [a Ha].
  induction Hidle as [|p early [Hp Hq] _ IH].
  - exists []. split; [|split; [reflexivity|apply le_n]].
    cbn [app render_loop]. unfold carousel_step, begin_transition, begins.
    cbn [initial_carousel transitioning last_switch negb andb].
    replace (switch_interval cfg <=? now t - start) with true
      by (symmetry; apply Z.leb_le; exact Hdue).
    cbn [transitioning]. unfold float_progress, float_div.
    rewrite Hd. reflexivity.
  - destruct IH as [log [Hrun [Hlen Hle]]].
    assert (Hstep : carousel_step cfg horse_images img_width
                                  (initial_carousel start) (now p)
                    = inr {| at_time := now p;
                             state_before := initial_carousel start;
                             began := false; progress_shown := None;
                             committed := false;
                             state_after := initial_carousel start;
                             drawn := Full 0 |}).
    { unfold carousel_step, begin_transition, begins.
      cbn [initial_carousel transitioning last_switch negb andb].
      replace (switch_interval cfg <=? now p - start) with false
        by (symmetry; apply Z.leb_gt; exact Hp).
      cbn [initial_carousel transitioning idx]. rewrite Ha. reflexivity. }
    destruct (draws p) eqn:Hdraws.
    + exists ({| at_time := now p; state_before := initial_carousel start;
                 began := false; progress_shown := None; committed := false;
                 state_after := initial_carousel start; drawn := Full 0 |}
                :: log).
      split; [|split].
      * cbn [app]. rewrite (render_loop_pass _ _ _ _ _ _ _ _ _ _ Hstep Hdraws).
        cbn zeta. rewrite (poll_ignored btn_continue btn_quit _ _ Hq).
        cbn [initial_flags running state_after].
        fold initial_flags. rewrite Hrun. reflexivity.
      * intros Hall. apply Forall_inv_tail in Hall.
        cbn [List.length]. rewrite (Hlen Hall). reflexivity.
      * cbn [List.length]. apply le_n_S. exact Hle.
    + exists []. split; [|split].
      * cbn [app]. apply render_loop_raises. right. exact Hdraws.
      * intros Hall. apply Forall_inv in Hall. congruence.
      * apply Nat.le_0_l.
Qed.

End CarouselOrder.

Section CarouselSession.

Import Alert.





Lemma zero_duration_ends_the_session_witness :
  exists log,
    render_loop {| window_max_width := 500; switch_interval := 2000;
                   transition_duration := 0 |}
                [tt] 400
                (continue_button (ui default_config) 400)
                (quit_button (ui default_config) 400)
                (initial_carousel 0) initial_flags
                ([ {| now := 16; draws := true; events := [OTHER 4] |} ]
                   ++ {| now := 2000; draws := true; events := [QUIT] |} :: [])
    = (Returned true, log)
    /\ (Forall (fun p => draws p = true)
               [ {| now := 16; draws := true; events := [OTHER 4] |} ] ->
        List.length log
        = List.length [ {| now := 16; draws := true; events := [OTHER 4] |} ])
    /\ (List.length log
        <= List.length [ {| now := 16; draws := true; events := [OTHER 4] |} ])%nat.
Proof.
  apply zero_duration_ends_the_session.
  - reflexivity.
  - discriminate.
  - repeat constructor.
  - cbn. lia.
Defined.

End CarouselSession.

Section GifFrames.

Import Alert.

Lemma append_frames_until_bad (good : list Surface)
      (rest : list (option Surface)) :
  append_frames (map Some good ++ None :: rest) = good.
Proof. induction good as [|f good IH]; cbn; [|rewrite IH]; reflexivity. Qed.

(** X19.  A GIF with a frame that cannot be converted is cut short, not
    dropped: with imageio, the frames before the first bad one are kept as
    carousel entries and the frames after it are lost; a GIF that cannot be
    read at all yields nothing. *)
Theorem gif_keeps_the_frames_before_a_bad_one
        (env : folder_env) (fname : string) :
  endswith (lower fname) ".gif" = true ->
  (forall (good : list Surface) (rest : list (option Surface)),
      mimread env fname = Some (map Some good ++ None :: rest) ->
      load_entry true env fname = good)
  /\ (mimread env fname = None -> load_entry true env fname = []).
Proof.
  intros Hg.
  assert (Hp : endswith (lower fname) ".png" = false).
  { destruct (endswith (lower fname) ".png") eqn:Hp; [|reflexivity].
    apply endswith_png_not_gif in Hp. congruence. }
  unfold load_entry. rewrite Hp, Hg. cbn [orb negb]. split.
  - intros good rest Hm. rewrite Hm. apply append_frames_until_bad.
  - intros Hm. rewrite Hm. reflexivity.
Qed.

Lemma gif_keeps_the_frames_before_a_bad_one_witness :
  load_entry true
    {| folder_exists := true; listdir := Some ["dance.gif"%string];
       image_load := fun fname => Some (still fname);
       mimread := fun fname =>
                    Some [Some (gif_frame fname 0); Some (gif_frame fname 1);
                          None; Some (gif_frame fname 3)] |}
    "dance.gif"
  = [gif_frame "dance.gif" 0; gif_frame "dance.gif" 1].
Proof.
  apply (proj1 (gif_keeps_the_frames_before_a_bad_one
                  {| folder_exists := true; listdir := Some ["dance.gif"%string];
                     image_load := fun fname => Some (still fname);
                     mimread := fun fname =>
                                  Some [Some (gif_frame fname 0);
                                        Some (gif_frame fname 1);
                                        None; Some (gif_frame fname 3)] |}
                  "dance.gif" eq_refl)
               [gif_frame "dance.gif" 0; gif_frame "dance.gif" 1]
               [Some (gif_frame "dance.gif" 3)]).
  reflexivity.
Defined.

End GifFrames.
